(** * A concurrent TCP port scanner: embedding and verification

    The repository holds two near-duplicate programs, [scanner/scanner.py]
    and [scanner3/scanner3.py].  Each defines [scan_port] (one TCP connect
    probe), [port_scanner] (one probe per port of a range, run on a thread
    pool and collected in submission order), [export_to_json] (the report)
    and a command-line entry point.  The second program passes a timeout
    through to the probes and validates its arguments first.

    The embedding is shallow.  Python values are Rocq values, a [dict] is a
    finite map with string keys, and code with effects runs in a small monad
    that threads the local variables of a function, logs every call to the
    outside world and may raise.  The outside world (socket layer, resolver,
    clock, file system) is a record of answers, over which all theorems
    quantify. *)

From Stdlib Require Import ZArith Floats.
From stdpp Require Import gmap strings list fin_maps pretty.

(** ** Python values, exceptions and the effect monad *)

Module Python.

(** The values stored in a probe result: strings and integers. *)
Inductive pyval :=
  | VStr (s : string)
  | VInt (n : Z).

Abbreviation dict := (gmap string pyval).

#[export] Instance pyval_eq_dec : EqDecision pyval.
Proof. solve_decision. Defined.

(** The values stored in a report: a plain value or the list of results. *)
Inductive jval :=
  | JVal (v : pyval)
  | JResults (rs : list dict).

(** Exception classes that the calls of the two programs raise.  All of
    them derive from [Exception]; [gaierror] derives from [OSError]. *)
Inductive exc_class :=
  | OSError
  | gaierror
  | ValueError
  | OverflowError
  | TypeError
  | KeyError
  | UnicodeError
  | RuntimeError.

(** A raised object: an instance of one of the classes above with its
    message [str(e)], or [SystemExit], which derives from [BaseException]
    only and is what [sys.exit] and [parser.error] raise. *)
Inductive exn :=
  | Exc (cls : exc_class) (msg : string)
  | SystemExit (code : Z).

Definition py_str (e : exn) : string :=
  match e with
  | Exc _ msg => msg
  | SystemExit code => pretty code
  end.

(** [except Exception] *)
Definition is_Exception (e : exn) : bool :=
  match e with
  | Exc _ _ => true
  | SystemExit _ => false
  end.

(** [except socket.gaierror] *)
Definition is_gaierror (e : exn) : bool :=
  match e with
  | Exc gaierror _ => true
  | _ => false
  end.

(** A bare [except:] *)
Definition is_BaseException (e : exn) : bool := true.

Inductive outcome (A : Type) :=
  | Ok (a : A)
  | Raise (e : exn).
Arguments Ok {A} a.
Arguments Raise {A} e.

(** What a call into the operating system or the standard library answers:
    a value, or an exception of a class deriving from [Exception]. *)
Inductive answer (A : Type) :=
  | Ret (a : A)
  | Err (cls : exc_class) (msg : string).
Arguments Ret {A} a.
Arguments Err {A} cls msg.

(** The calls to the outside world, in the order they are made. *)
Inductive event :=
  | EvSocket
  | EvSetTimeout (t : float)
  | EvConnectEx (host : string) (port : Z)
  | EvGetServByPort (port : Z) (proto : string)
  | EvClose
  | EvGetHostByName (host : string)
  | EvOpen (filename : string)
  | EvJsonDump (filename : string) (doc : gmap string jval)
  | EvFileClose (filename : string)
  | EvPrint (line : string)
  | EvSummary (count : nat) (open_ports : list pyval)
  | EvUsageError (msg : string).

(** A computation over local variables [S]: it logs its calls, leaves the
    local variables as they are when it raises, and returns or raises. *)
Definition Py (S A : Type) : Type := S → list event * S * outcome A.

(** A computation with no local variables. *)
Abbreviation IO := (Py unit).

#[export] Instance py_ret {S} : MRet (Py S) := λ A a s, ([], s, Ok a).

#[export] Instance py_bind {S} : MBind (Py S) := λ A B f m s,
  match m s with
  | (l, s', Ok a) => let '(l', s'', r) := f a s' in (l ++ l', s'', r)
  | (l, s', Raise e) => (l, s', Raise e)
  end.

Definition emit {S} (ev : event) : Py S unit := λ s, ([ev], s, Ok ()).

Definition raise {S A} (e : exn) : Py S A := λ s, ([], s, Raise e).

(** A call to the outside world: logged, then answered. *)
Definition call {S A} (ev : event) (ans : answer A) : Py S A := λ s,
  ([ev], s, match ans with Ret a => Ok a | Err cls msg => Raise (Exc cls msg) end).

Definition get {S} : Py S S := λ s, ([], s, Ok s).

Definition modify {S} (f : S → S) : Py S unit := λ s, ([], f s, Ok ()).

(** [try: body  except <catches> as e: handler e] *)
Definition try_except {S A} (body : Py S A) (catches : exn → bool)
    (handler : exn → Py S A) : Py S A := λ s,
  match body s with
  | (l, s', Ok a) => (l, s', Ok a)
  | (l, s', Raise e) =>
      if catches e
      then let '(l', s'', r) := handler e s' in (l ++ l', s'', r)
      else (l, s', Raise e)
  end.

(** [with ctx: body], for a context manager whose [__exit__] runs
    [release] and does not suppress exceptions: [release] runs on every
    exit path, and an exception of [release] replaces the one of [body]. *)
Definition with_exit {S A} (body : Py S A) (release : Py S unit) : Py S A := λ s,
  match body s with
  | (l, s', Ok a) =>
      match release s' with
      | (l', s'', Ok _) => (l ++ l', s'', Ok a)
      | (l', s'', Raise e) => (l ++ l', s'', Raise e)
      end
  | (l, s', Raise e) =>
      match release s' with
      | (l', s'', Ok _) => (l ++ l', s'', Raise e)
      | (l', s'', Raise e') => (l ++ l', s'', Raise e')
      end
  end.

(** A function body with local variables initialised to [s0], run from a
    caller whose own local variables it cannot touch. *)
Definition local {S S' A} (s0 : S) (m : Py S A) : Py S' A := λ s',
  let '(l, _, r) := m s0 in (l, s', r).

(** [for x in xs: body x] *)
Fixpoint for_each {S A} (xs : list A) (body : A → Py S unit) : Py S unit :=
  match xs with
  | [] => mret ()
  | x :: xs' => body x ;; for_each xs' body
  end.

(** [d[key]]: raises [KeyError], whose [str] is the quoted key. *)
Definition getitem {S} (d : dict) (key : string) : Py S pyval :=
  match d !! key with
  | Some v => mret v
  | None => raise (Exc KeyError ("'" +:+ key +:+ "'"))
  end.

(** [a or b] on strings: the empty string is false. *)
Definition py_or (a : option string) (b : string) : string :=
  match a with
  | Some (String c s) => String c s
  | _ => b
  end.

(** [range(a, b)] *)
Definition py_range (a b : Z) : list Z := seqZ a (b - a).

(** The log and the outcome of a computation without local variables. *)
Definition events {A} (m : IO A) : list event := (m ()).1.1.
Definition result_of {A} (m : IO A) : outcome A := (m ()).2.

End Python.
Import Python.

(** ** The outside world *)

(** The operating system as the probe of one port meets it.  First the
    start of a worker thread, when [executor.submit] asks for one while
    submitting the call of this port: [Thread.start] raises [RuntimeError]
    when no thread can be started.  Then the socket layer: the answers of
    [socket.socket(AF_INET, SOCK_STREAM)], of [settimeout], [connect_ex] and
    [close] on that socket, and of [socket.getservbyport].  [connect_ex]
    answers an error indicator, [0] for an established connection, and
    raises for problems found before the C-level connect (such as a host
    name that does not resolve). *)
Record socket_layer := {
  on_thread_start : answer unit;
  on_socket : answer unit;
  on_settimeout : float → answer unit;
  on_connect_ex : string → Z → float → answer Z;
  on_getservbyport : Z → string → answer string;
  on_close : answer unit;
}.

(** The world of a whole run: the socket layer met by the probe of each
    port, [socket.gethostbyname], [datetime.now().isoformat()],
    [open(filename, "w")], the writes of [json.dump] to the file of that
    name, and the closing of that file, which flushes what is buffered and
    so raises [OSError] for a file that opened and cannot be written.
    Printing to the terminal is taken not to fail. *)
Record system := {
  net : Z → socket_layer;
  on_gethostbyname : string → answer string;
  clock_now : string;
  on_open : string → answer unit;
  on_dump : string → answer unit;
  on_file_close : string → answer unit;
}.

(** The default of the [timeout] parameters. *)
Definition default_timeout : float := 1.0%float.

(** [with socket.socket(socket.AF_INET, socket.SOCK_STREAM) as s: body].
    The socket is created first; when that raises, the body does not run
    and there is nothing to close. *)
Definition with_socket {S A} (sl : socket_layer) (body : Py S A) : Py S A :=
  call EvSocket (on_socket sl) ;;
  with_exit body (call EvClose (on_close sl)).

(** [ThreadPoolExecutor(max_workers=n)]: the constructor refuses a
    worker count that is not positive. *)
Definition ThreadPoolExecutor {S} (max_workers : Z) : Py S unit :=
  if decide (max_workers ≤ 0)%Z
  then raise (Exc ValueError "max_workers must be greater than 0")
  else mret ().

(** [future.result()], read sequentially: the submitted call runs when its
    result is asked for, and what it raises is raised again here. *)
Definition future_result {S A} (future : IO A) : Py S A := local () future.

(** [[executor.submit(...) for ... in ...]], read sequentially, with
    [threads] worker threads started so far.  [submit] creates the future
    of a call, queues the call, and then starts a worker thread while the
    pool has fewer than [max_workers] (no worker is idle, since no call has
    run yet).  When a thread cannot be started, the comprehension ends with
    that exception; the call of that [submit] has been queued all the same.
    The result: the futures of the calls queued, the number of threads, and
    the exception if there is one. *)
Fixpoint submit_each {A} (max_workers : Z) (threads : nat)
    (calls : list (answer unit * IO A)) : list (IO A) * nat * option exn :=
  match calls with
  | [] => ([], threads, None)
  | (start, submitted) :: rest =>
      if decide (Z.of_nat threads < max_workers)%Z then
        match start with
        | Ret _ =>
            let '(futures, n, failure) := submit_each max_workers (S threads) rest in
            (submitted :: futures, n, failure)
        | Err cls msg => ([submitted], threads, Some (Exc cls msg))
        end
      else
        let '(futures, n, failure) := submit_each max_workers threads rest in
        (submitted :: futures, n, failure)
  end.

(** Leaving the [with] block while calls are queued, as happens when a
    [submit] has raised: [shutdown(wait=True)] joins the worker threads,
    which run every queued call before they leave, keeping in its future
    what it returns or raises.  With no thread started there is nothing to
    join and the queued call never runs. *)
Definition shutdown {S A} (queued : list (IO A)) (threads : nat) : Py S unit :=
  match threads with
  | 0 => mret ()
  | S _ =>
      for_each queued
        (λ submitted,
           try_except (future_result submitted ;; mret ())
             is_BaseException (λ _, mret ()))
  end.

(** [parser.error(msg)]: usage and message on stderr, then exit status 2. *)
Definition parser_error {S A} (msg : string) : Py S A := λ s,
  ([EvUsageError msg], s, Raise (SystemExit 2)).

(** [if c: body] *)
Definition when {S} (c : bool) (body : Py S unit) : Py S unit :=
  if c then body else mret ().


(** [[r["port"] for r in results if r["status"] == "open"]] *)
Fixpoint open_ports_of {S} (results : list dict) : Py S (list pyval) :=
  match results with
  | [] => mret []
  | r :: rest =>
      status ← getitem r "status";
      if decide (status = VStr "open") then
        port ← getitem r "port";
        ports ← open_ports_of rest;
        mret (port :: ports)
      else open_ports_of rest
  end.

(** ** The thread pool, as [port_scanner] uses it

    [port_scanner] builds a [ThreadPoolExecutor], submits one call per port
    in a list comprehension, asks each future for its result in the order of
    submission, and leaves the [with] block, which waits for the workers.
    The model below is the small-step reading of that body: the main thread
    and the worker threads take steps in any order a schedule chooses.

    [submit] puts a work item on the queue and starts a new worker thread
    unless it finds an idle one or the pool already has [max_workers]
    threads.  Whether an idle worker is found depends on a semaphore whose
    handling differs between Python versions, so the schedule decides; with
    no thread started yet there is none to find.  When the thread cannot
    be started, [submit] raises with the work item already queued, and the
    exception leaves [port_scanner] through the [with] block.  A worker
    takes the oldest work item, runs the call and stores the outcome in the
    item's future. *)

Module Pool.

(** What [port_scanner] hands to the pool: the worker count, the ports in
    the order of [range(start_port, end_port + 1)], and the call submitted
    for a port; and what the operating system answers when [submit] starts
    a thread while submitting the call of a port. *)
Record config := {
  max_workers : Z;
  ports : list Z;
  work : Z → IO dict;
  start_thread : Z → answer unit;
}.

(** A worker thread waits for a work item or runs the call of a future. *)
Inductive worker :=
  | Idle
  | Busy (future : nat) (port : Z).

(** Where the main thread stands in the body of [port_scanner]. *)
Inductive main_thread :=
  | Submitting (todo : list Z)
  | Collecting (pending : list nat) (results : list dict)
  | Failing (e : exn)
  | Returned (results : list dict)
  | Raised (e : exn).

(** The futures are numbered in the order of submission; [submitted] counts
    them.  The queue holds the work items not yet taken, oldest first, each
    with its future and the port it was submitted for.  A future is in
    [futures] once its call has returned or raised. *)
Record state := {
  pc : main_thread;
  submitted : nat;
  queue : list (nat * Z);
  workers : list worker;
  futures : gmap nat (outcome dict);
}.

(** The main thread takes its next step ([idle_found] matters to [submit]
    only), worker [w] takes the oldest work item, or the call that worker
    [w] runs comes to its end. *)
Inductive action :=
  | Main (idle_found : bool)
  | Take (w : nat)
  | Finish (w : nat).

Definition busy_future (w : worker) : option nat :=
  match w with
  | Busy future _ => Some future
  | Idle => None
  end.

(** The futures whose calls are running. *)
Definition running (ws : list worker) : list nat := omap busy_future ws.

(** The number of probes in flight. *)
Definition in_flight (s : state) : nat := length (running (workers s)).

(** [shutdown(wait=True)] returns: every worker thread has been joined.  A
    worker leaves once its call is over and nothing is queued; with no
    thread started there is none to join, whatever is queued. *)
Definition quiescent (s : state) : bool :=
  bool_decide ((queue s = [] ∨ workers s = []) ∧ running (workers s) = []).

(** The threads after [_adjust_thread_count], or the exception of the
    start of the new thread. *)
Definition adjust_thread_count (c : config) (idle_found : bool)
    (start : answer unit) (ws : list worker) : outcome (list worker) :=
  if idle_found && negb (bool_decide (ws = [])) then Ok ws
  else if decide (Z.of_nat (length ws) < max_workers c)%Z then
    match start with
    | Ret _ => Ok (ws ++ [Idle])
    | Err cls msg => Raise (Exc cls msg)
    end
  else Ok ws.

Definition set_pc (s : state) (pc' : main_thread) : state :=
  {| pc := pc'; submitted := submitted s; queue := queue s;
     workers := workers s; futures := futures s |}.

Definition init (c : config) : state :=
  {| pc := if decide (max_workers c ≤ 0)%Z
           then Raised (Exc ValueError "max_workers must be greater than 0")
           else Submitting (ports c);
     submitted := 0; queue := []; workers := []; futures := ∅ |}.

(** The main thread submits the next port, which raises when the thread
    it asks for cannot be started; or, the comprehension being over, starts
    collecting; or collects the result of the next future, which blocks
    until the future is done and raises what its call raised; or leaves the
    [with] block, which blocks until the pool is quiescent. *)
Definition main_step (c : config) (idle_found : bool) (s : state) : option state :=
  match pc s with
  | Submitting (port :: todo) =>
      match adjust_thread_count c idle_found (start_thread c port) (workers s) with
      | Ok ws =>
          Some {| pc := Submitting todo;
                  submitted := S (submitted s);
                  queue := queue s ++ [(submitted s, port)];
                  workers := ws;
                  futures := futures s |}
      | Raise e =>
          Some {| pc := Failing e;
                  submitted := S (submitted s);
                  queue := queue s ++ [(submitted s, port)];
                  workers := workers s;
                  futures := futures s |}
      end
  | Submitting [] => Some (set_pc s (Collecting (seq 0 (submitted s)) []))
  | Collecting (future :: pending) results =>
      match futures s !! future with
      | Some (Ok r) => Some (set_pc s (Collecting pending (results ++ [r])))
      | Some (Raise e) => Some (set_pc s (Failing e))
      | None => None
      end
  | Collecting [] results =>
      if quiescent s then Some (set_pc s (Returned results)) else None
  | Failing e =>
      if quiescent s then Some (set_pc s (Raised e)) else None
  | Returned _ | Raised _ => None
  end.

Definition step (c : config) (a : action) (s : state) : option state :=
  match a with
  | Main idle_found => main_step c idle_found s
  | Take w =>
      match workers s !! w, queue s with
      | Some Idle, (future, port) :: q =>
          Some {| pc := pc s; submitted := submitted s; queue := q;
                  workers := <[w := Busy future port]> (workers s);
                  futures := futures s |}
      | _, _ => None
      end
  | Finish w =>
      match workers s !! w with
      | Some (Busy future port) =>
          Some {| pc := pc s; submitted := submitted s; queue := queue s;
                  workers := <[w := Idle]> (workers s);
                  futures := <[future := result_of (work c port)]> (futures s) |}
      | _ => None
      end
  end.

(** A schedule is the list of the steps taken, first to last. *)
Fixpoint run (c : config) (schedule : list action) (s : state) : option state :=
  match schedule with
  | [] => Some s
  | a :: rest =>
      match step c a s with
      | Some s' => run c rest s'
      | None => None
      end
  end.

Definition reachable (c : config) (s : state) : Prop :=
  ∃ schedule, run c schedule (init c) = Some s.

(** The main thread has left [port_scanner]. *)
Definition finished (s : state) : bool :=
  match pc s with
  | Returned _ | Raised _ => true
  | _ => false
  end.

(** *** Invariant and measure of the runs *)

Section invariant.
Variable c : config.

(** What the position of the main thread tells about the futures. *)
Definition pc_inv (s : state) : Prop :=
  match pc s with
  | Submitting todo =>
      (0 < max_workers c)%Z ∧ todo = drop (submitted s) (ports c) ∧
      submitted s ≤ length (ports c)
  | Collecting pending rs =>
      submitted s = length (ports c) ∧
      pending = seq (length rs) (submitted s - length rs) ∧
      Forall2 (λ p r, result_of (work c p) = Ok r) (take (length rs) (ports c)) rs
  | Failing e =>
      ∃ p, p ∈ ports c ∧
           (result_of (work c p) = Raise e ∨
            ∃ cls msg, start_thread c p = Err cls msg ∧ e = Exc cls msg)
  | Returned rs => Forall2 (λ p r, result_of (work c p) = Ok r) (ports c) rs
  | Raised e =>
      (max_workers c ≤ 0)%Z ∨
      ∃ p, p ∈ ports c ∧
           (result_of (work c p) = Raise e ∨
            ∃ cls msg, start_thread c p = Err cls msg ∧ e = Exc cls msg)
  end.

Record inv (s : state) : Prop := {
  inv_started : match pc s with
                | Submitting _ | Collecting _ _ => queue s ≠ [] → workers s ≠ []
                | _ => True
                end;
  inv_queue : ∀ f p, (f, p) ∈ queue s → ports c !! f = Some p;
  inv_busy : ∀ f p, Busy f p ∈ workers s → ports c !! f = Some p;
  inv_cover : ∀ f, f < submitted s →
    f ∈ (queue s).*1 ∨ f ∈ running (workers s) ∨ is_Some (futures s !! f);
  inv_done : ∀ f o, futures s !! f = Some o →
    ∃ p, ports c !! f = Some p ∧ o = result_of (work c p);
  inv_pc : pc_inv s;
}.

(** What is left to do: four steps per port not yet submitted (submit,
    take, finish, collect), two per queued call, one per running call, one
    per future not yet collected, and the steps that end the main thread. *)
Definition measure (s : state) : nat :=
  match pc s with
  | Submitting todo => 4 * length todo + submitted s + 3
  | Collecting pending _ => length pending + 2
  | Failing _ => 1
  | Returned _ | Raised _ => 0
  end + 2 * length (queue s) + in_flight s.

End invariant.

End Pool.

(** ** scanner/scanner.py *)

Module Scanner.

Definition scan_port (sl : socket_layer) (host : string) (port : Z)
    (timeout : float) : IO dict :=
  local
    ({[ "host" := VStr host; "port" := VInt port;
        "status" := VStr "closed"; "service" := VStr "unknown" ]} : dict)
    (try_except
       (with_socket sl
          (call (EvSetTimeout timeout) (on_settimeout sl timeout) ;;
           rc ← call (EvConnectEx host port) (on_connect_ex sl host port timeout);
           if decide (rc = 0%Z) then
             modify <["status" := VStr "open"]> ;;
             try_except
               (service ← call (EvGetServByPort port "tcp")
                             (on_getservbyport sl port "tcp");
                modify <["service" := VStr service]>)
               is_BaseException
               (λ _, mret ())
           else mret ()))
       is_Exception
       (λ e, modify <["error" := VStr (py_str e)]>) ;;
     get).

(** The call submitted for one port: [scan_port] is given no timeout, so
    its parameter takes the default. *)
Definition submitted_call (net : Z → socket_layer) (host : string) (port : Z)
    : IO dict :=
  scan_port (net port) host port default_timeout.

(** Read sequentially: all calls are submitted before any of them runs,
    and each runs when its result is collected.  When a [submit] raises,
    the [with] block is left: the calls queued so far run if a thread was
    started, and the exception leaves [port_scanner].  The order of the log
    across probes is that of this reading; on the pool the calls of
    different probes interleave. *)
Definition port_scanner (net : Z → socket_layer) (host : string)
    (start_port end_port max_threads : Z) : IO (list dict) :=
  local ([] : list dict)
    (ThreadPoolExecutor max_threads ;;
     let '(futures, threads, failure) :=
       submit_each max_threads 0
         ((λ port, (on_thread_start (net port), submitted_call net host port))
            <$> py_range start_port (end_port + 1)) in
     match failure with
     | None =>
         for_each futures
           (λ future, r ← future_result future; modify (λ results, results ++ [r]))
     | Some e => shutdown futures threads ;; raise e
     end ;;
     get).

(** The body of [port_scanner] on the thread pool. *)
Definition port_scanner_pool (net : Z → socket_layer) (host : string)
    (start_port end_port max_threads : Z) : Pool.config :=
  {| Pool.max_workers := max_threads;
     Pool.ports := py_range start_port (end_port + 1);
     Pool.work := submitted_call net host;
     Pool.start_thread := λ port, on_thread_start (net port) |}.

(** The local variable [report] of [export_to_json]. *)
Definition report {S} (sys : system) (data : list dict) : Py S (gmap string jval) :=
  let timestamp := clock_now sys in
  host ← match data with
         | r :: _ => getitem r "host"
         | [] => mret (VStr "unknown")
         end;
  mret ({[ "timestamp" := JVal (VStr timestamp); "host" := JVal host;
           "scan_results" := JResults data ]} : gmap string jval).

Definition export_to_json (sys : system) (data : list dict) (filename : string)
    : IO unit :=
  doc ← report sys data;
  call (EvOpen filename) (on_open sys filename) ;;
  with_exit (call (EvJsonDump filename doc) (on_dump sys filename))
    (call (EvFileClose filename) (on_file_close sys filename)) ;;
  emit (EvPrint ("Results saved to " +:+ filename)).

(** The parsed command line. *)
Record args := {
  arg_host : string;
  arg_start : Z;
  arg_end : Z;
  arg_threads : Z;
  arg_output : option string;
}.

Definition main (sys : system) (a : args) : IO unit :=
  emit (EvPrint ("Scanning " +:+ arg_host a +:+ " (ports " +:+ pretty (arg_start a)
                 +:+ "-" +:+ pretty (arg_end a) +:+ ")...")) ;;
  results ← port_scanner (net sys) (arg_host a) (arg_start a) (arg_end a)
              (arg_threads a);
  export_to_json sys results
    (py_or (arg_output a) ("scan_" +:+ arg_host a +:+ ".json")) ;;
  open_ports ← open_ports_of results;
  emit (EvSummary (length open_ports) open_ports).

End Scanner.

(** ** scanner3/scanner3.py *)

Module Scanner3.

Definition scan_port (sl : socket_layer) (host : string) (port : Z)
    (timeout : float) : IO dict :=
  local
    ({[ "host" := VStr host; "port" := VInt port;
        "status" := VStr "closed"; "service" := VStr "unknown" ]} : dict)
    (try_except
       (with_socket sl
          (call (EvSetTimeout timeout) (on_settimeout sl timeout) ;;
           rc ← call (EvConnectEx host port) (on_connect_ex sl host port timeout);
           if decide (rc = 0%Z) then
             modify <["status" := VStr "open"]> ;;
             try_except
               (service ← call (EvGetServByPort port "tcp")
                             (on_getservbyport sl port "tcp");
                modify <["service" := VStr service]>)
               is_BaseException
               (λ _, mret ())
           else mret ()))
       is_Exception
       (λ e, modify <["error" := VStr (py_str e)]>) ;;
     get).

(** The call submitted for one port, with the scan's timeout. *)
Definition submitted_call (net : Z → socket_layer) (host : string)
    (timeout : float) (port : Z) : IO dict :=
  scan_port (net port) host port timeout.

(** Read sequentially: all calls are submitted before any of them runs,
    and each runs when its result is collected.  When a [submit] raises,
    the [with] block is left: the calls queued so far run if a thread was
    started, and the exception leaves [port_scanner].  The order of the log
    across probes is that of this reading; on the pool the calls of
    different probes interleave. *)
Definition port_scanner (net : Z → socket_layer) (host : string)
    (start_port end_port max_threads : Z) (timeout : float) : IO (list dict) :=
  local ([] : list dict)
    (ThreadPoolExecutor max_threads ;;
     let '(futures, threads, failure) :=
       submit_each max_threads 0
         ((λ port, (on_thread_start (net port),
                    submitted_call net host timeout port))
            <$> py_range start_port (end_port + 1)) in
     match failure with
     | None =>
         for_each futures
           (λ future, r ← future_result future; modify (λ results, results ++ [r]))
     | Some e => shutdown futures threads ;; raise e
     end ;;
     get).

(** The body of [port_scanner] on the thread pool. *)
Definition port_scanner_pool (net : Z → socket_layer) (host : string)
    (start_port end_port max_threads : Z) (timeout : float) : Pool.config :=
  {| Pool.max_workers := max_threads;
     Pool.ports := py_range start_port (end_port + 1);
     Pool.work := submitted_call net host timeout;
     Pool.start_thread := λ port, on_thread_start (net port) |}.

(** The local variable [report] of [export_to_json]. *)
Definition report {S} (sys : system) (data : list dict) : Py S (gmap string jval) :=
  let timestamp := clock_now sys in
  host ← match data with
         | r :: _ => getitem r "host"
         | [] => mret (VStr "unknown")
         end;
  mret ({[ "timestamp" := JVal (VStr timestamp); "host" := JVal host;
           "scan_results" := JResults data ]} : gmap string jval).

Definition export_to_json (sys : system) (data : list dict) (filename : string)
    : IO unit :=
  doc ← report sys data;
  call (EvOpen filename) (on_open sys filename) ;;
  with_exit (call (EvJsonDump filename doc) (on_dump sys filename))
    (call (EvFileClose filename) (on_file_close sys filename)) ;;
  emit (EvPrint ("Results saved to " +:+ filename)).

(** The parsed command line. *)
Record args := {
  arg_host : string;
  arg_start : Z;
  arg_end : Z;
  arg_threads : Z;
  arg_timeout : float;
  arg_output : option string;
}.

Definition main (sys : system) (a : args) : IO unit :=
  when (bool_decide (arg_start a < 1 ∨ arg_end a > 65535 ∨ arg_start a > arg_end a)%Z)
    (parser_error
       "Invalid port range. Ports must be between 1-65535 and start <= end.") ;;
  when (bool_decide (arg_threads a < 1 ∨ arg_threads a > 1000)%Z)
    (parser_error "Threads must be between 1 and 1000.") ;;
  try_except
    (call (EvGetHostByName (arg_host a)) (on_gethostbyname sys (arg_host a)) ;;
     mret ())
    is_gaierror
    (λ _, parser_error ("Cannot resolve host " +:+ arg_host a)) ;;
  emit (EvPrint ("Scanning " +:+ arg_host a +:+ " (ports " +:+ pretty (arg_start a)
                 +:+ "-" +:+ pretty (arg_end a) +:+ ")...")) ;;
  results ← port_scanner (net sys) (arg_host a) (arg_start a) (arg_end a)
              (arg_threads a) (arg_timeout a);
  export_to_json sys results
    (py_or (arg_output a) ("scan_" +:+ arg_host a +:+ ".json")) ;;
  open_ports ← open_ports_of results;
  emit (EvSummary (length open_ports) open_ports).

End Scanner3.

(** ** Vocabulary of the statements *)

(** The connect attempt of a probe established a connection: the socket was
    created, the timeout was set, and [connect_ex] answered [0]. *)
Definition connected (sl : socket_layer) (host : string) (port : Z)
    (timeout : float) : Prop :=
  on_socket sl = Ret () ∧ on_settimeout sl timeout = Ret () ∧
  on_connect_ex sl host port timeout = Ret 0%Z.

(** The message of the exception that leaves the [with] block of a probe,
    if one does: the one raised by the socket's creation, else the one
    raised on closing it, else the one raised by [settimeout] or by
    [connect_ex]. *)
Definition error_message (sl : socket_layer) (host : string) (port : Z)
    (timeout : float) : option string :=
  match on_socket sl with
  | Err _ msg => Some msg
  | Ret _ =>
      match on_close sl with
      | Err _ msg => Some msg
      | Ret _ =>
          match on_settimeout sl timeout with
          | Err _ msg => Some msg
          | Ret _ =>
              match on_connect_ex sl host port timeout with
              | Err _ msg => Some msg
              | Ret _ => None
              end
          end
      end
  end.

(** The shape of a probe result. *)
Definition well_formed (host : string) (port : Z) (d : dict) : Prop :=
  d !! "host" = Some (VStr host) ∧ d !! "port" = Some (VInt port) ∧
  (d !! "status" = Some (VStr "open") ∨ d !! "status" = Some (VStr "closed")) ∧
  (∃ service, d !! "service" = Some (VStr service)) ∧
  (∀ key, is_Some (d !! key) →
          key ∈ ["host"; "port"; "status"; "service"; "error"]).

(** The connect attempt of a probe was made and failed: the socket was
    created, the timeout was set, and [connect_ex] answered an error
    indicator other than [0] or raised. *)
Definition connect_failed (sl : socket_layer) (host : string) (port : Z)
    (timeout : float) : Prop :=
  on_socket sl = Ret () ∧ on_settimeout sl timeout = Ret () ∧
  on_connect_ex sl host port timeout ≠ Ret 0%Z.

(** Every worker thread that [submit] asks for while submitting the calls
    of the range can be started. *)
Definition threads_start (net : Z → socket_layer) (start_port end_port : Z)
    : Prop :=
  ∀ port, (start_port ≤ port ≤ end_port)%Z → on_thread_start (net port) = Ret ().

(** The results are those of the ports [start_port], [start_port + 1], ...
    in this order. *)
Definition ascending_from (host : string) (start_port : Z) (rs : list dict)
    : Prop :=
  ∀ (i : nat) d, rs !! i = Some d → well_formed host (start_port + Z.of_nat i) d.






(** Every run of the pool on [c] that has returned has returned, position
    by position, the results of the calls submitted for [ports], which
    ascend from [start_port]; and no run is longer than the measure of the
    initial state.  When the worker count is positive and every thread that
    [submit] asks for can be started, what a run returns is what the
    sequential reading returns, and every run, wherever it stands, can be
    continued until it returns: so every run that cannot be continued has
    returned that list. *)
Definition collected_in_submission_order (c : Pool.config)
    (sequential : IO (list dict)) (host : string) (start_port : Z)
    (ports : list Z) : Prop :=
  ∀ schedule s, Pool.run c schedule (Pool.init c) = Some s →
    (∀ rs, Pool.pc s = Pool.Returned rs →
           Forall2 (λ port d, result_of (Pool.work c port) = Ok d) ports rs ∧
           ascending_from host start_port rs) ∧
    length schedule ≤ Pool.measure (Pool.init c) ∧
    ((0 < Pool.max_workers c)%Z →
     (∀ port, port ∈ ports → Pool.start_thread c port = Ret ()) →
     (∀ rs, Pool.pc s = Pool.Returned rs → result_of sequential = Ok rs) ∧
     ∃ rest s' rs, Pool.run c rest s = Some s' ∧ Pool.pc s' = Pool.Returned rs).


(** The call that writes the report. *)
Definition is_dump (ev : event) : bool :=
  match ev with EvJsonDump _ _ => true | _ => false end.


(** *** Vocabulary of the further properties *)

(** Kinds of calls in a log. *)
Definition is_socket (ev : event) : bool :=
  match ev with EvSocket => true | _ => false end.
Definition is_close (ev : event) : bool :=
  match ev with EvClose => true | _ => false end.
Definition is_connect (ev : event) : bool :=
  match ev with EvConnectEx _ _ => true | _ => false end.
Definition is_lookup (ev : event) : bool :=
  match ev with EvGetServByPort _ _ => true | _ => false end.

(** The socket of a probe is created and takes its timeout. *)
Definition reaches_connect (sl : socket_layer) (timeout : float) : bool :=
  match on_socket sl, on_settimeout sl timeout with
  | Ret _, Ret _ => true
  | _, _ => false
  end.

(** [connected], as a test. *)
Definition connects (sl : socket_layer) (host : string) (port : Z)
    (timeout : float) : bool :=
  match on_socket sl, on_settimeout sl timeout,
        on_connect_ex sl host port timeout with
  | Ret _, Ret _, Ret 0%Z => true
  | _, _, _ => false
  end.

(** [r["status"] == "open"], for a result that has a status. *)
Definition is_open (r : dict) : bool :=
  bool_decide (r !! "status" = Some (VStr "open")).

(** The report that holds [host] and [data] at the time of the clock. *)
Definition report_with (sys : system) (host : pyval) (data : list dict)
    : gmap string jval :=
  {[ "timestamp" := JVal (VStr (clock_now sys)); "host" := JVal host;
     "scan_results" := JResults data ]}.


(** *** Worlds used in the examples *)

(** A socket layer that answers all calls, [connect_ex] with [rc]. *)
Definition answering (rc : answer Z) (service : answer string) : socket_layer :=
  {| on_thread_start := Ret ();
     on_socket := Ret (); on_settimeout := λ _, Ret ();
     on_connect_ex := λ _ _ _, rc; on_getservbyport := λ _ _, service;
     on_close := Ret () |}.

(** ECONNREFUSED *)
Definition refusing : socket_layer :=
  answering (Ret 111%Z) (Err OSError "port/proto not found").

(** A host name that the socket layer does not resolve. *)
Definition unresolved : socket_layer :=
  answering (Err gaierror "[Errno -2] Name or service not known")
            (Err OSError "port/proto not found").

(** EMFILE on creating the socket. *)
Definition out_of_descriptors : socket_layer :=
  {| on_thread_start := Ret ();
     on_socket := Err OSError "[Errno 24] Too many open files";
     on_settimeout := λ _, Ret (); on_connect_ex := λ _ _ _, Ret 111%Z;
     on_getservbyport := λ _ _, Err OSError "port/proto not found";
     on_close := Ret () |}.

(** A host on which only port 7 listens, and for which the probe of port 9
    raises. *)
Definition test_net (port : Z) : socket_layer :=
  if decide (port = 7%Z) then answering (Ret 0%Z) (Ret "echo")
  else if decide (port = 9%Z) then out_of_descriptors
  else refusing.


(** A machine on which no further thread can be started. *)
Definition thread_limit_reached (port : Z) : socket_layer :=
  {| on_thread_start := Err RuntimeError "can't start new thread";
     on_socket := Ret (); on_settimeout := λ _, Ret ();
     on_connect_ex := λ _ _ _, Ret 111%Z;
     on_getservbyport := λ _ _, Err OSError "port/proto not found";
     on_close := Ret () |}.

(** An output file that opens and cannot be written, such as /dev/full:
    the flush at its close raises. *)
Definition full_device : system :=
  {| net := test_net; on_gethostbyname := λ _, Ret "127.0.0.1";
     clock_now := "2024-05-01T12:00:00"; on_open := λ _, Ret ();
     on_dump := λ _, Ret ();
     on_file_close := λ _, Err OSError "[Errno 28] No space left on device" |}.

(** A world in which every call answers. *)
Definition test_system : system :=
  {| net := test_net; on_gethostbyname := λ _, Ret "127.0.0.1";
     clock_now := "2024-05-01T12:00:00"; on_open := λ _, Ret ();
     on_dump := λ _, Ret (); on_file_close := λ _, Ret () |}.

(** A schedule for two ports on two workers in which the call submitted
    second finishes first. *)
Definition second_finishes_first : list Pool.action :=
  [Pool.Main false; Pool.Main false; Pool.Main false;
   Pool.Take 0; Pool.Take 1; Pool.Finish 1; Pool.Finish 0;
   Pool.Main false; Pool.Main false; Pool.Main false].

Ltac run_probe sl host port timeout :=
  unfold Scanner.scan_port, Scanner3.scan_port, result_of, events, local,
    try_except, with_socket, with_exit, call, modify, get, mbind, py_bind,
    mret, py_ret;
  destruct (on_socket sl) as [[]|? ?]; simpl;
  try (destruct (on_settimeout sl timeout) as [[]|? ?]; simpl;
       try (destruct (on_connect_ex sl host port timeout) as [rc|? ?]; simpl;
            try (destruct (decide (rc = 0%Z)) as [->|?]; simpl;
                 try (destruct (on_getservbyport sl port "tcp") as [?|? ?]; simpl))));
  try (destruct (on_close sl) as [[]|? ?]; simpl).

(** ** One probe *)

(** The two programs define the same [scan_port]. *)
Lemma scan_port_same : Scanner.scan_port = Scanner3.scan_port.
Proof. reflexivity. Qed.

Lemma scan_port_returns sl host port timeout :
  ∃ d, result_of (Scanner.scan_port sl host port timeout) = Ok d.
Proof. run_probe sl host port timeout; eauto. Qed.

Lemma scan_port_spec sl host port timeout :
  ∃ d, result_of (Scanner.scan_port sl host port timeout) = Ok d ∧
       well_formed host port d ∧
       (d !! "status" = Some (VStr "open") ↔ connected sl host port timeout) ∧
       d !! "error" = VStr <$> error_message sl host port timeout.
Proof.
  unfold connected, error_message, well_formed.
  run_probe sl host port timeout.
  all: eexists; split; [reflexivity|].
  all: repeat split.
  all: try (simplify_map_eq; done).
  all: try (left; simplify_map_eq; done).
  all: try (right; simplify_map_eq; done).
  all: try (eexists; simplify_map_eq; done).
  all: try (intros (? & ? & ?); simplify_eq; done).
  all: intros key Hkey; rewrite ?lookup_insert, ?lookup_singleton in Hkey;
    repeat case_decide; subst; try set_solver; by destruct Hkey.
Qed.

Lemma scan_port_service sl host port timeout d :
  result_of (Scanner.scan_port sl host port timeout) = Ok d →
  d !! "service" =
    Some (VStr (match on_socket sl, on_settimeout sl timeout,
                      on_connect_ex sl host port timeout,
                      on_getservbyport sl port "tcp" with
                | Ret _, Ret _, Ret 0%Z, Ret service => service
                | _, _, _, _ => "unknown"
                end)).
Proof.
  run_probe sl host port timeout; intros [= <-]; simplify_map_eq; try done.
  all: destruct rc; done.
Qed.

Lemma scan_port_events sl host port timeout ev :
  ev ∈ events (Scanner.scan_port sl host port timeout) →
  ev ∈ [EvSocket; EvSetTimeout timeout; EvConnectEx host port;
        EvGetServByPort port "tcp"; EvClose].
Proof.
  run_probe sl host port timeout; rewrite !elem_of_cons, !elem_of_nil; tauto.
Qed.

(** ** The scan, read sequentially *)

Lemma bind_run {S A B} (m : Py S A) (f : A → Py S B) (s : S) :
  (m ≫= f) s =
  match m s with
  | (l, s', Ok a) => let '(l', s'', r) := f a s' in (l ++ l', s'', r)
  | (l, s', Raise e) => (l, s', Raise e)
  end.
Proof. reflexivity. Qed.

Lemma collect_body_run (f : IO dict) (acc : list dict) (d : dict) :
  result_of f = Ok d →
  (future_result f ≫= λ r, modify (λ results, results ++ [r])) acc
  = (events f, acc ++ [d], Ok ()).
Proof.
  unfold result_of, events. intros Hd. rewrite bind_run.
  unfold future_result, local, modify.
  destruct (f ()) as [[l []] o]. simpl in *. subst o. by rewrite app_nil_r.
Qed.

Lemma collect_loop (futures : list (IO dict)) (acc : list dict) :
  Forall (λ f, ∃ d, result_of f = Ok d) futures →
  ∃ rs,
    for_each futures
      (λ future, r ← future_result future; modify (λ results, results ++ [r])) acc
    = (mjoin (events <$> futures), acc ++ rs, Ok ()) ∧
    Forall2 (λ f r, result_of f = Ok r) futures rs.
Proof.
  intros Hall. revert acc. induction Hall as [|f fs [d Hd] _ IH]; intros acc.
  - exists []. rewrite app_nil_r. by split.
  - destruct (IH (acc ++ [d])) as (rs & Hrun & Hrs).
    exists (d :: rs). split; [|by constructor].
    cbn [for_each]. rewrite bind_run, (collect_body_run f acc d Hd), Hrun.
    rewrite <-app_assoc. done.
Qed.

Lemma submit_each_held {A} (max_workers : Z) (threads : nat)
    (calls : list (answer unit * IO A)) :
  Forall (λ c, c.1 = Ret ()) calls →
  ∃ n, submit_each max_workers threads calls = (snd <$> calls, n, None).
Proof.
  intros Hall. revert threads.
  induction Hall as [|[start f] calls Hstart _ IH]; intros threads.
  - by exists threads.
  - simpl in Hstart. subst start. cbn [submit_each].
    destruct (decide (Z.of_nat threads < max_workers)%Z) as [Hlt|Hge].
    + destruct (IH (S threads)) as [k ->]. by exists k.
    + destruct (IH threads) as [k ->]. by exists k.
Qed.

Lemma submit_each_queued {A} (max_workers : Z) (threads : nat)
    (calls : list (answer unit * IO A)) (f : IO A) :
  f ∈ (submit_each max_workers threads calls).1.1 → f ∈ snd <$> calls.
Proof.
  revert threads. induction calls as [|[start g] calls IH]; intros threads.
  - done.
  - cbn [submit_each]. rewrite fmap_cons, elem_of_cons. simpl.
    destruct (decide (Z.of_nat threads < max_workers)%Z) as [Hlt|Hge].
    + destruct start as [[]|cls msg].
      * specialize (IH (S threads)).
        destruct (submit_each max_workers (S threads) calls) as [[fs k] e].
        simpl in *. rewrite elem_of_cons. tauto.
      * simpl. rewrite elem_of_cons, elem_of_nil. tauto.
    + specialize (IH threads).
      destruct (submit_each max_workers threads calls) as [[fs k] e].
      simpl in *. rewrite elem_of_cons. tauto.
Qed.

Lemma shutdown_body_run {S A} (f : IO A) (s : S) :
  try_except (future_result f ;; mret ()) is_BaseException (λ _, mret ()) s
  = (events f, s, Ok ()).
Proof.
  unfold try_except. rewrite bind_run. unfold future_result, local, events.
  destruct (f ()) as [[l []] [a|e]]; simpl; by rewrite app_nil_r.
Qed.

Lemma shutdown_run {S A} (queued : list (IO A)) (threads : nat) (s : S) :
  ∃ log, shutdown queued threads s = (log, s, Ok ()) ∧
         ∀ ev, ev ∈ log → ∃ f, f ∈ queued ∧ ev ∈ events f.
Proof.
  destruct threads as [|n]; simpl.
  { exists []. split; [done|]. intros ev Hev. by apply elem_of_nil in Hev. }
  induction queued as [|f fs (log & Hrun & Hlog)].
  - exists []. split; [done|]. intros ev Hev. by apply elem_of_nil in Hev.
  - exists (events f ++ log). split.
    + cbn [for_each]. by rewrite bind_run, shutdown_body_run, Hrun.
    + intros ev [Hev|Hev]%elem_of_app.
      * exists f. split; [by left|done].
      * destruct (Hlog ev Hev) as (g & Hg & Hevg). exists g.
        split; [by right|done].
Qed.

Lemma port_scanner3_spec net host start_port end_port max_threads timeout :
  (0 < max_threads)%Z →
  threads_start net start_port end_port →
  ∃ rs,
    Scanner3.port_scanner net host start_port end_port max_threads timeout ()
    = (mjoin ((λ port, events (Scanner3.scan_port (net port) host port timeout))
                <$> py_range start_port (end_port + 1)), (), Ok rs) ∧
    Forall2 (λ port d, result_of (Scanner3.scan_port (net port) host port timeout) = Ok d)
      (py_range start_port (end_port + 1)) rs.
Proof.
  intros Hmax Hthreads.
  destruct (collect_loop
              (Scanner3.submitted_call net host timeout
                 <$> py_range start_port (end_port + 1)) [])
    as (rs & Hrun & Hrs).
  { apply Forall_fmap, Forall_forall. intros port _. apply scan_port_returns. }
  destruct (submit_each_held max_threads 0
              ((λ port, (on_thread_start (net port),
                         Scanner3.submitted_call net host timeout port))
                 <$> py_range start_port (end_port + 1))) as [n Hsubmit].
  { apply Forall_fmap, Forall_forall. intros port Hport. simpl.
    unfold py_range in Hport. apply elem_of_seqZ in Hport.
    apply Hthreads. lia. }
  rewrite <-list_fmap_compose in Hsubmit.
  exists rs. split.
  - unfold Scanner3.port_scanner, local, ThreadPoolExecutor.
    destruct (decide (max_threads ≤ 0)%Z); [lia|].
    rewrite bind_run. simpl. rewrite Hsubmit.
    change (snd ∘ _ <$> _)
      with (Scanner3.submitted_call net host timeout
              <$> py_range start_port (end_port + 1)).
    rewrite bind_run, Hrun. simpl.
    rewrite app_nil_r, <-list_fmap_compose. done.
  - by apply Forall2_fmap_l in Hrs.
Qed.

(** ** The scan on the thread pool *)

Section pool_facts.
Import Pool.
Variable c : config.
Local Abbreviation inv := (Pool.inv c).
Local Abbreviation pc_inv := (Pool.pc_inv c).

Lemma running_app (ws1 ws2 : list worker) :
  running (ws1 ++ ws2) = running ws1 ++ running ws2.
Proof. apply omap_app. Qed.

Lemma running_take (ws : list worker) (w : nat) (f : nat) (p : Z) :
  ws !! w = Some Idle →
  running (<[w := Busy f p]> ws) ≡ₚ f :: running ws.
Proof.
  intros Hw. pose proof (lookup_lt_Some _ _ _ Hw) as Hlt.
  rewrite insert_take_drop by done.
  rewrite <-(take_drop_middle ws w Idle Hw) at 3.
  rewrite !running_app. simpl. by rewrite Permutation_middle.
Qed.

Lemma running_finish (ws : list worker) (w : nat) (f : nat) (p : Z) :
  ws !! w = Some (Busy f p) →
  running ws ≡ₚ f :: running (<[w := Idle]> ws).
Proof.
  intros Hw. pose proof (lookup_lt_Some _ _ _ Hw) as Hlt.
  rewrite insert_take_drop by done.
  rewrite <-(take_drop_middle ws w _ Hw) at 1.
  rewrite !running_app. simpl. by rewrite Permutation_middle.
Qed.

Lemma running_length (ws : list worker) : length (running ws) ≤ length ws.
Proof. induction ws as [|[] ws IH]; simpl; lia. Qed.

Lemma adjust_thread_count_cases idle_found start (ws : list worker) :
  match adjust_thread_count c idle_found start ws with
  | Ok ws' =>
      (ws' = ws ∨
       ws' = ws ++ [Idle] ∧ (Z.of_nat (length ws) < max_workers c)%Z) ∧
      ((0 < max_workers c)%Z → ws' ≠ [])
  | Raise e => ∃ cls msg, start = Err cls msg ∧ e = Exc cls msg
  end.
Proof.
  unfold adjust_thread_count. destruct idle_found; simpl.
  - case_bool_decide as Hws; simpl.
    + subst ws. case_decide as Hlen.
      * destruct start as [[]|cls msg]; [|by eauto].
        split; [by right|done].
      * split; [by left|]. simpl in Hlen. lia.
    + split; [by left|done].
  - case_decide as Hlen.
    + destruct start as [[]|cls msg]; [|by eauto].
      split; [by right|by destruct ws].
    + split; [by left|]. intros Hmax. destruct ws; [simpl in Hlen; lia|done].
Qed.

Lemma running_started (ws ws' : list worker) :
  ws' = ws ∨ ws' = ws ++ [Idle] ∧ (Z.of_nat (length ws) < max_workers c)%Z →
  running ws' = running ws.
Proof.
  intros [->|[-> _]]; [done|]. rewrite running_app. simpl. by rewrite app_nil_r.
Qed.

(** *** The worker cap *)

Lemma step_workers_bound a s s' :
  step c a s = Some s' →
  length (workers s) ≤ Z.to_nat (max_workers c) →
  length (workers s') ≤ Z.to_nat (max_workers c).
Proof.
  intros Hstep Hle. destruct a as [idle_found|w|w]; simpl in Hstep.
  - unfold main_step in Hstep.
    destruct (pc s) as [[|port todo]|[|f pending] rs|e|rs|e]; simplify_eq; simpl;
      try done.
    + pose proof (adjust_thread_count_cases idle_found (start_thread c port)
                    (workers s)) as Hcases.
      destruct (adjust_thread_count c idle_found (start_thread c port) (workers s))
        as [ws'|e]; simplify_eq; simpl; [|done].
      destruct Hcases as [[->|[-> Hlt]] _]; [done|].
      rewrite length_app. simpl. lia.
    + destruct (quiescent s); by simplify_eq.
    + destruct (futures s !! f) as [[r|e]|]; by simplify_eq.
    + destruct (quiescent s); by simplify_eq.
  - destruct (workers s !! w) as [[|]|], (queue s) as [|[f p] q]; simplify_eq.
    simpl. by rewrite length_insert.
  - destruct (workers s !! w) as [[|f p]|]; simplify_eq.
    simpl. by rewrite length_insert.
Qed.

Lemma run_workers_bound schedule s s' :
  run c schedule s = Some s' →
  length (workers s) ≤ Z.to_nat (max_workers c) →
  length (workers s') ≤ Z.to_nat (max_workers c).
Proof.
  revert s. induction schedule as [|a rest IH]; intros s Hrun Hle; simpl in Hrun.
  - by simplify_eq.
  - destruct (step c a s) as [s1|] eqn:Hstep; [|done].
    eauto using step_workers_bound.
Qed.

Lemma reachable_in_flight s :
  reachable c s → in_flight s ≤ Z.to_nat (max_workers c).
Proof.
  intros [schedule Hrun]. unfold in_flight.
  etrans; [apply running_length|].
  eapply run_workers_bound; [done|]. simpl. lia.
Qed.

(** *** What holds in every state of a run *)

Lemma inv_init : inv (init c).
Proof.
  split; simpl.
  - by case_decide.
  - intros f p Hin. by apply elem_of_nil in Hin.
  - intros f p Hin. by apply elem_of_nil in Hin.
  - intros f Hf. lia.
  - intros f o Hf. by rewrite lookup_empty in Hf.
  - unfold pc_inv. simpl. case_decide; [by left|].
    split; [lia|]. split; [done|lia].
Qed.

Lemma elem_of_insert_worker (ws : list worker) (w : nat) (x y : worker) :
  x ∈ <[w := y]> ws → x = y ∨ x ∈ ws.
Proof.
  intros [i Hi]%list_elem_of_lookup.
  destruct (decide (w = i)) as [->|Hne].
  - pose proof (lookup_lt_Some _ _ _ Hi) as Hlt. rewrite length_insert in Hlt.
    rewrite list_lookup_insert_eq in Hi by done. left. congruence.
  - rewrite list_lookup_insert_ne in Hi by done.
    right. by eapply list_elem_of_lookup_2.
Qed.

Lemma inv_main_step idle_found s s' :
  main_step c idle_found s = Some s' → inv s → inv s'.
Proof.
  intros Hstep [Hstarted Hqueue Hbusy Hcover Hdone Hpc].
  unfold main_step in Hstep. unfold pc_inv in Hpc.
  destruct (pc s) as [[|port todo]|[|f pending] rs|e|rs|e] eqn:Hpcs.
  - (* the comprehension is over *)
    simplify_eq. destruct Hpc as (Hmax & Htodo & Hle).
    split; try done. unfold pc_inv. simpl.
    assert (submitted s = length (ports c)) as Hlen.
    { apply (f_equal length) in Htodo. rewrite length_drop in Htodo.
      simpl in Htodo. lia. }
    split; [done|]. split; [f_equal; lia|]. constructor.
  - (* submit *)
    destruct Hpc as (Hmax & Htodo & Hle).
    assert (ports c !! submitted s = Some port) as Hport.
    { rewrite <-(Nat.add_0_r (submitted s)), <-lookup_drop, <-Htodo. done. }
    assert (∀ f p, (f, p) ∈ queue s ++ [(submitted s, port)] →
                   ports c !! f = Some p) as Hqueue'.
    { intros f p [Hin|Hin%list_elem_of_singleton]%elem_of_app; [by eauto|].
      by simplify_eq. }
    assert (∀ ws', running ws' = running (workers s) →
              ∀ f, f < S (submitted s) →
                   f ∈ (queue s ++ [(submitted s, port)]).*1 ∨
                   f ∈ running ws' ∨ is_Some (futures s !! f)) as Hcover'.
    { intros ws' -> f Hf. rewrite fmap_app, elem_of_app.
      destruct (decide (f = submitted s)) as [->|Hne].
      - left. right. simpl. apply list_elem_of_singleton. done.
      - destruct (Hcover f) as [?|[?|?]]; [lia|auto..]. }
    pose proof (adjust_thread_count_cases idle_found (start_thread c port)
                  (workers s)) as Hcases.
    destruct (adjust_thread_count c idle_found (start_thread c port) (workers s))
      as [ws'|e]; simplify_eq.
    + destruct Hcases as [Hws Hne]. split; simpl.
      * intros _. by apply Hne.
      * done.
      * intros f p Hin. apply Hbusy. destruct Hws as [->|[-> _]]; [done|].
        apply elem_of_app in Hin as [Hin|Hin%list_elem_of_singleton]; done.
      * apply Hcover'. by apply running_started.
      * done.
      * unfold pc_inv. simpl. split; [done|].
        rewrite (drop_S _ _ _ Hport) in Htodo. simplify_eq.
        split; [done|]. by apply lookup_lt_Some in Hport.
    + destruct Hcases as (cls & msg & Hstart & ->). split; simpl.
      * done.
      * done.
      * done.
      * by apply Hcover'.
      * done.
      * unfold pc_inv. simpl. exists port.
        split; [by eapply list_elem_of_lookup_2|]. right. by eauto.
  - (* leaving the with block *)
    destruct (quiescent s); simplify_eq.
    destruct Hpc as (Hlen & Hpending & Hrs).
    split; try done. unfold pc_inv. simpl.
    assert (length rs = length (ports c)) as Hall.
    { apply Forall2_length in Hrs. rewrite length_take in Hrs.
      destruct (submitted s - length rs) eqn:Hk; [lia|done]. }
    by rewrite take_ge in Hrs by lia.
  - (* future.result() *)
    destruct Hpc as (Hlen & Hpending & Hrs).
    destruct (submitted s - length rs) as [|k] eqn:Hk; [done|].
    simpl in Hpending. simplify_eq.
    destruct (futures s !! length rs) as [[r|e]|] eqn:Hf; simplify_eq.
    + destruct (Hdone _ _ Hf) as (p & Hp & Hr).
      split; try done. unfold pc_inv. simpl.
      rewrite length_app. simpl. rewrite Nat.add_1_r.
      split; [done|]. split; [f_equal; lia|].
      rewrite (take_S_r _ _ _ Hp). apply Forall2_app; [done|].
      constructor; [done|constructor].
    + destruct (Hdone _ _ Hf) as (p & Hp & Hr).
      split; try done. unfold pc_inv. simpl.
      exists p. split; [by eapply list_elem_of_lookup_2|by left].
  - destruct (quiescent s); simplify_eq.
    split; try done. unfold pc_inv. simpl. by right.
  - done.
  - done.
Qed.

Lemma inv_step a s s' : step c a s = Some s' → inv s → inv s'.
Proof.
  destruct a as [idle_found|w|w]; simpl; [apply inv_main_step|..].
  - (* a worker takes a work item *)
    intros Hstep [Hstarted Hqueue Hbusy Hcover Hdone Hpc].
    destruct (workers s !! w) as [[|]|] eqn:Hw; try done.
    destruct (queue s) as [|[f p] q] eqn:Hq; simplify_eq.
    split; simpl.
    + destruct (pc s); try done.
      * intros _ Hnil. apply (f_equal length) in Hnil.
        rewrite length_insert in Hnil. apply lookup_lt_Some in Hw.
        simpl in Hnil. lia.
      * intros _ Hnil. apply (f_equal length) in Hnil.
        rewrite length_insert in Hnil. apply lookup_lt_Some in Hw.
        simpl in Hnil. lia.
    + intros f' p' Hin. apply Hqueue. by right.
    + intros f' p' [Hin|Hin]%elem_of_insert_worker; [|by eauto].
      simplify_eq. apply Hqueue. by left.
    + intros f' Hf'. rewrite (running_take _ _ f p Hw).
      rewrite elem_of_cons.
      destruct (Hcover f' Hf') as [Hin|[Hin|Hin]]; [|by auto..].
      simpl in Hin. apply elem_of_cons in Hin as [->|Hin]; auto.
    + done.
    + unfold pc_inv in *. simpl. by destruct (pc s).
  - (* a worker finishes a call *)
    intros Hstep [Hstarted Hqueue Hbusy Hcover Hdone Hpc].
    destruct (workers s !! w) as [[|f p]|] eqn:Hw; simplify_eq.
    split; simpl.
    + destruct (pc s); try done.
      * intros _ Hnil. apply (f_equal length) in Hnil.
        rewrite length_insert in Hnil. apply lookup_lt_Some in Hw.
        simpl in Hnil. lia.
      * intros _ Hnil. apply (f_equal length) in Hnil.
        rewrite length_insert in Hnil. apply lookup_lt_Some in Hw.
        simpl in Hnil. lia.
    + done.
    + intros f' p' [Hin|Hin]%elem_of_insert_worker; [done|by eauto].
    + intros f' Hf'. destruct (decide (f' = f)) as [->|Hne].
      { right. right. rewrite lookup_insert_eq. by eexists. }
      rewrite lookup_insert_ne by done.
      destruct (Hcover f' Hf') as [Hin|[Hin|Hin]]; [by auto| |by auto].
      rewrite (running_finish _ _ _ _ Hw) in Hin.
      apply elem_of_cons in Hin as [->|Hin]; [done|by auto].
    + intros f' o. rewrite lookup_insert. case_decide; [|by eauto].
      intros [= <-]. subst f'. exists p. split; [|done].
      apply Hbusy. by eapply list_elem_of_lookup_2.
    + unfold pc_inv in *. simpl. by destruct (pc s).
Qed.

Lemma inv_run schedule s s' : run c schedule s = Some s' → inv s → inv s'.
Proof.
  revert s. induction schedule as [|a rest IH]; intros s Hrun Hinv; simpl in Hrun.
  - by simplify_eq.
  - destruct (step c a s) as [s1|] eqn:Hstep; [|done].
    eauto using inv_step.
Qed.

Lemma inv_reachable s : reachable c s → inv s.
Proof. intros [schedule Hrun]. eauto using inv_run, inv_init. Qed.

(** *** Every run comes to an end *)

Lemma step_measure a s s' : step c a s = Some s' → measure s' < measure s.
Proof.
  unfold measure, in_flight. destruct a as [idle_found|w|w]; simpl.
  - unfold main_step.
    destruct (pc s) as [[|port todo]|[|f pending] rs|e|rs|e]; try done.
    + intros [= <-]. simpl. rewrite length_seq. lia.
    + pose proof (adjust_thread_count_cases idle_found (start_thread c port)
                    (workers s)) as Hcases.
      destruct (adjust_thread_count c idle_found (start_thread c port) (workers s))
        as [ws'|e]; intros [= <-]; simpl; rewrite length_app; simpl.
      * destruct Hcases as [Hws _]. rewrite (running_started _ _ Hws). lia.
      * lia.
    + destruct (quiescent s); intros [= <-]; simpl; lia.
    + destruct (futures s !! f) as [[r|e]|]; intros [= <-]; simpl; lia.
    + destruct (quiescent s); intros [= <-]; simpl; lia.
  - destruct (workers s !! w) as [[|]|] eqn:Hw; try done.
    destruct (queue s) as [|[f p] q]; intros [= <-]. simpl.
    rewrite (running_take _ _ f p Hw). simpl. lia.
  - destruct (workers s !! w) as [[|f p]|] eqn:Hw; intros [= <-]. simpl.
    rewrite (running_finish _ _ _ _ Hw). simpl. lia.
Qed.

Lemma run_measure schedule s s' :
  run c schedule s = Some s' → length schedule + measure s' ≤ measure s.
Proof.
  revert s. induction schedule as [|a rest IH]; intros s Hrun; simpl in Hrun.
  - simplify_eq. simpl. lia.
  - destruct (step c a s) as [s1|] eqn:Hstep; [|done].
    apply step_measure in Hstep. apply IH in Hrun. simpl. lia.
Qed.

Lemma run_app schedule1 schedule2 s s1 s2 :
  run c schedule1 s = Some s1 → run c schedule2 s1 = Some s2 →
  run c (schedule1 ++ schedule2) s = Some s2.
Proof.
  revert s. induction schedule1 as [|a rest IH]; intros s Hrun1 Hrun2;
    simpl in *.
  - by simplify_eq.
  - destruct (step c a s) as [s'|]; [eauto|done].
Qed.

(** While something is queued or running, some worker can take a step. *)
Lemma worker_progress s :
  inv s → quiescent s = false → ∃ a s', step c a s = Some s'.
Proof.
  intros Hinv Hq. unfold quiescent in Hq. apply bool_decide_eq_false in Hq.
  destruct (running (workers s)) as [|f fs] eqn:Hrunning.
  - destruct (workers s) as [|[|f p] ws] eqn:Hworkers; [tauto| |done].
    destruct (queue s) as [|[f p] q] eqn:Hqs; [tauto|].
    exists (Take 0). eexists. simpl. by rewrite Hworkers, Hqs.
  - assert (f ∈ running (workers s)) as Hf by (rewrite Hrunning; by left).
    apply list_elem_of_omap in Hf as ([|f' p] & Hin & Hbusy); simplify_eq.
    apply list_elem_of_lookup in Hin as [w Hw].
    exists (Finish w). eexists. simpl. by rewrite Hw.
Qed.

Lemma progress s :
  inv s → finished s = false → ∃ a s', step c a s = Some s'.
Proof.
  intros Hinv Hfin. unfold finished in Hfin.
  destruct (quiescent s) eqn:Hq; [|by apply worker_progress].
  pose proof (inv_pc c s Hinv) as Hpc. unfold pc_inv in Hpc.
  pose proof (inv_started c s Hinv) as Hstarted.
  exists (Main true). simpl. unfold main_step. rewrite Hq.
  destruct (pc s) as [[|port todo]|[|f pending] rs|e|rs|e]; try by eauto.
  - destruct (adjust_thread_count c true (start_thread c port) (workers s));
      by eauto.
  - destruct Hpc as (Hlen & Hpending & Hrs).
    destruct (submitted s - length rs) as [|k] eqn:Hk; [done|].
    simpl in Hpending. simplify_eq.
    unfold quiescent in Hq.
    apply bool_decide_eq_true in Hq as [Hqueue Hrunning].
    destruct (inv_cover c s Hinv (length rs)) as [Hin|[Hin|[o Ho]]]; [lia|..].
    + assert (queue s ≠ []) as Hne.
      { intros Hnil. rewrite Hnil in Hin. by apply elem_of_nil in Hin. }
      destruct Hqueue as [Hnil|Hnil]; [done|]. by apply Hstarted in Hne.
    + rewrite Hrunning in Hin. by apply elem_of_nil in Hin.
    + rewrite Ho. destruct o; eauto.
Qed.

(** Every run can be continued until the main thread has left
    [port_scanner]. *)
Lemma completion s :
  inv s → ∃ schedule s', run c schedule s = Some s' ∧ finished s' = true.
Proof.
  remember (measure s) as n eqn:Hn. revert s Hn.
  induction n as [n IH] using lt_wf_ind. intros s -> Hinv.
  destruct (finished s) eqn:Hfin.
  - exists [], s. by split.
  - destruct (progress s Hinv Hfin) as (a & s1 & Hstep).
    destruct (IH (measure s1) (step_measure _ _ _ Hstep) s1 eq_refl)
      as (schedule & s' & Hrun & Hfin'); [by eapply inv_step|].
    exists (a :: schedule), s'. split; [|done]. simpl. by rewrite Hstep.
Qed.

(** *** What the main thread returns *)

Lemma returned_results s rs :
  reachable c s → pc s = Returned rs →
  Forall2 (λ p r, result_of (work c p) = Ok r) (ports c) rs.
Proof.
  intros Hs%inv_reachable Hpc. apply inv_pc in Hs. unfold pc_inv in Hs.
  by rewrite Hpc in Hs.
Qed.

Lemma finished_returned s :
  (0 < max_workers c)%Z →
  (∀ port, ∃ d, result_of (work c port) = Ok d) →
  (∀ port, port ∈ ports c → start_thread c port = Ret ()) →
  reachable c s → finished s = true → ∃ rs, pc s = Returned rs.
Proof.
  intros Hmax Hwork Hstart Hs%inv_reachable Hfin. apply inv_pc in Hs.
  unfold pc_inv in Hs. unfold finished in Hfin.
  destruct (pc s) as [| | |rs|e]; try done; [by eauto|].
  destruct Hs as [?|(p & Hin & [Hp|(cls & msg & Hp & _)])]; [lia| |].
  - destruct (Hwork p) as [d Hd]. congruence.
  - rewrite (Hstart p Hin) in Hp. discriminate.
Qed.

End pool_facts.

(** ** The properties of a probe *)

(** C2: the status of a probe result is "open" exactly when the connect
    attempt established a connection, that is when [connect_ex] answered
    [0] on a socket that was created and given its timeout; in every other
    case (an error indicator, an exception anywhere) it is "closed".  Both
    programs. *)
Theorem status_open_iff_connected sl host port timeout :
  ∃ d, result_of (Scanner.scan_port sl host port timeout) = Ok d ∧
       result_of (Scanner3.scan_port sl host port timeout) = Ok d ∧
       (d !! "status" = Some (VStr "open") ↔ connected sl host port timeout) ∧
       (¬ connected sl host port timeout → d !! "status" = Some (VStr "closed")).
Proof.
  destruct (scan_port_spec sl host port timeout) as (d & Hd & Hwf & Hopen & _).
  exists d. split; [done|]. split; [done|]. split; [done|].
  intros Hnot. destruct Hwf as (_ & _ & [Hs|Hs] & _); [|done].
  by apply Hopen in Hs.
Qed.

(** C4, as stated, fails: a refused connection is a failed connect attempt,
    and the result of its probe has no error field. *)
Lemma refused_connect_leaves_no_error :
  ¬ ∀ sl host port timeout d,
      connect_failed sl host port timeout →
      result_of (Scanner.scan_port sl host port timeout) = Ok d →
      d !! "status" = Some (VStr "closed") ∧ is_Some (d !! "error").
Proof.
  intros Hclaim.
  destruct (Hclaim refusing "127.0.0.1" 81%Z default_timeout _
              ltac:(by repeat split) eq_refl) as [_ [v Hv]].
  vm_compute in Hv. discriminate.
Qed.

(** C4, amended: when the connect attempt fails the status is "closed".
    The error field holds the message of the exception when [connect_ex]
    raised; when [connect_ex] answered an error indicator there is no
    error field, unless closing the socket raises, whose message is then
    recorded.  Both programs. *)
Theorem connect_failure_recorded sl host port timeout :
  connect_failed sl host port timeout →
  ∃ d, result_of (Scanner.scan_port sl host port timeout) = Ok d ∧
       result_of (Scanner3.scan_port sl host port timeout) = Ok d ∧
       d !! "status" = Some (VStr "closed") ∧
       d !! "error" =
         match on_close sl, on_connect_ex sl host port timeout with
         | Err _ msg, _ => Some (VStr msg)
         | Ret _, Err _ msg => Some (VStr msg)
         | Ret _, Ret _ => None
         end.
Proof.
  intros (Hsocket & Htimeout & Hconnect).
  destruct (scan_port_spec sl host port timeout) as (d & Hd & Hwf & Hopen & Herr).
  exists d. repeat split; try done.
  - destruct Hwf as (_ & _ & [Hs|Hs] & _); [|done].
    apply Hopen in Hs as (_ & _ & Hs). done.
  - rewrite Herr. unfold error_message. rewrite Hsocket, Htimeout.
    by destruct (on_close sl), (on_connect_ex sl host port timeout).
Qed.

Lemma connect_failure_recorded_witness :
  ∃ d, result_of (Scanner.scan_port unresolved "no.such.host" 80 default_timeout)
       = Ok d ∧
       d !! "status" = Some (VStr "closed") ∧
       d !! "error" = Some (VStr "[Errno -2] Name or service not known").
Proof.
  destruct (connect_failure_recorded unresolved "no.such.host" 80 default_timeout)
    as (d & Hd & _ & Hstatus & Herror).
  - by repeat split.
  - exists d. by repeat split.
Defined.

(** C6: when the connect succeeds and the service lookup raises, the probe
    still reports "open", the service stays "unknown", and the lookup
    leaves no trace in the error field: there is none, unless closing the
    socket raises.  Both programs. *)
Theorem lookup_failure_swallowed sl host port timeout cls msg :
  connected sl host port timeout →
  on_getservbyport sl port "tcp" = Err cls msg →
  ∃ d, result_of (Scanner.scan_port sl host port timeout) = Ok d ∧
       result_of (Scanner3.scan_port sl host port timeout) = Ok d ∧
       d !! "status" = Some (VStr "open") ∧
       d !! "service" = Some (VStr "unknown") ∧
       d !! "error" = match on_close sl with
                      | Ret _ => None
                      | Err _ msg' => Some (VStr msg')
                      end.
Proof.
  intros Hconn Hlookup.
  destruct (scan_port_spec sl host port timeout) as (d & Hd & Hwf & Hopen & Herr).
  exists d. repeat split; try done.
  - by apply Hopen.
  - rewrite (scan_port_service _ _ _ _ _ Hd).
    destruct Hconn as (-> & -> & ->). by rewrite Hlookup.
  - rewrite Herr. unfold error_message.
    destruct Hconn as (-> & -> & ->). by destruct (on_close sl).
Qed.

Lemma lookup_failure_swallowed_witness :
  ∃ d, result_of (Scanner.scan_port (answering (Ret 0%Z) (Err OSError "port/proto not found"))
                    "127.0.0.1" 8081 default_timeout) = Ok d ∧
       d !! "status" = Some (VStr "open") ∧
       d !! "service" = Some (VStr "unknown") ∧
       d !! "error" = None.
Proof.
  destruct (lookup_failure_swallowed
              (answering (Ret 0%Z) (Err OSError "port/proto not found"))
              "127.0.0.1" 8081 default_timeout OSError "port/proto not found")
    as (d & Hd & _ & Hstatus & Hservice & Herror).
  - by repeat split.
  - reflexivity.
  - exists d. by repeat split.
Defined.

(** ** The properties of a scan *)

Lemma probes_ascending net host start_port end_port timeout rs :
  Forall2 (λ port d, result_of (Scanner3.scan_port (net port) host port timeout) = Ok d)
    (py_range start_port (end_port + 1)) rs →
  length rs = Z.to_nat (end_port + 1 - start_port) ∧
  ascending_from host start_port rs.
Proof.
  intros Hrs. split.
  - apply Forall2_length in Hrs. unfold py_range in Hrs.
    by rewrite length_seqZ in Hrs.
  - intros i d Hi.
    destruct (Forall2_lookup_r _ _ _ _ _ Hrs Hi) as (port & Hport & Hd).
    unfold py_range in Hport. apply lookup_seqZ in Hport as [-> _].
    destruct (scan_port_spec (net (start_port + Z.of_nat i)%Z) host
                (start_port + Z.of_nat i)%Z timeout) as (d' & Hd' & Hwf & _).
    rewrite <-scan_port_same in Hd. congruence.
Qed.


Lemma forall2_functional {A B} (P : A → B → Prop) (l : list A) (k1 k2 : list B) :
  (∀ x y1 y2, P x y1 → P x y2 → y1 = y2) →
  Forall2 P l k1 → Forall2 P l k2 → k1 = k2.
Proof.
  intros Hfun H1. revert k2. induction H1 as [|x y1 l k1 Hy1 _ IH]; intros k2 H2.
  - by inversion H2.
  - inversion H2 as [|? y2 ? k2' Hy2 H2']; subst. f_equal; eauto.
Qed.

Lemma test_net_threads port : on_thread_start (test_net port) = Ret ().
Proof. unfold test_net. by repeat case_decide. Qed.



Lemma pool_collected net host start_port end_port max_threads timeout :
  collected_in_submission_order
    (Scanner3.port_scanner_pool net host start_port end_port max_threads timeout)
    (Scanner3.port_scanner net host start_port end_port max_threads timeout)
    host start_port (py_range start_port (end_port + 1)).
Proof.
  intros schedule s Hrun.
  set (c := Scanner3.port_scanner_pool net host start_port end_port max_threads
              timeout) in *.
  assert (Pool.reachable c s) as Hs by by exists schedule.
  assert (∀ rs, Pool.pc s = Pool.Returned rs →
    Forall2 (λ port d,
               result_of (Scanner3.scan_port (net port) host port timeout) = Ok d)
      (py_range start_port (end_port + 1)) rs) as Hret.
  { intros rs Hpc. exact (returned_results c s rs Hs Hpc). }
  split; [|split].
  - intros rs Hpc. split; [exact (Hret rs Hpc)|].
    by destruct (probes_ascending _ _ _ _ _ _ (Hret rs Hpc)).
  - apply run_measure in Hrun. lia.
  - intros Hmax Hstart. simpl in Hmax, Hstart.
    assert (threads_start net start_port end_port) as Hthreads.
    { intros port Hport. apply Hstart. unfold py_range. apply elem_of_seqZ. lia. }
    split.
    + intros rs Hpc.
      destruct (port_scanner3_spec net host start_port end_port max_threads
                  timeout) as (rs' & Hseq & Hrs'); [lia|done|].
      assert (rs = rs') as <-.
      { eapply forall2_functional; [|exact (Hret rs Hpc)|exact Hrs'].
        intros port d1 d2 Hd1 Hd2. simpl in *. congruence. }
      unfold result_of. by rewrite Hseq.
    + destruct (completion c s) as (rest & s' & Hrest & Hfin).
      { by apply inv_reachable. }
      destruct (finished_returned c s') as [rs Hpc]; [done| |done| |done|].
      { intros port. apply scan_port_returns. }
      { exists (schedule ++ rest). by eapply run_app. }
      by exists rest, s', rs.
Qed.

(** C3: on the thread pool, whatever the schedule (which worker takes
    which call, and in which order the calls finish), a run of
    [port_scanner] that has returned has returned one result per port of
    the range, in ascending order of the ports.  When the worker count is
    positive and no [submit] raises for want of a thread, that list is the
    one of the sequential reading, and every run can be continued until it
    returns.  Both programs. *)
Theorem results_in_submission_order net host start_port end_port max_threads timeout :
  collected_in_submission_order
    (Scanner.port_scanner_pool net host start_port end_port max_threads)
    (Scanner.port_scanner net host start_port end_port max_threads)
    host start_port (py_range start_port (end_port + 1)) ∧
  collected_in_submission_order
    (Scanner3.port_scanner_pool net host start_port end_port max_threads timeout)
    (Scanner3.port_scanner net host start_port end_port max_threads timeout)
    host start_port (py_range start_port (end_port + 1)).
Proof.
  split; [|by apply pool_collected].
  by apply (pool_collected net host start_port end_port max_threads default_timeout).
Qed.

Lemma results_in_submission_order_witness :
  ∃ s rs,
    Pool.run (Scanner.port_scanner_pool test_net "127.0.0.1" 6 7 2)
      second_finishes_first
      (Pool.init (Scanner.port_scanner_pool test_net "127.0.0.1" 6 7 2)) = Some s ∧
    Pool.pc s = Pool.Returned rs ∧
    result_of (Scanner.port_scanner test_net "127.0.0.1" 6 7 2) = Ok rs ∧
    ascending_from "127.0.0.1" 6 rs.
Proof.
  destruct (results_in_submission_order test_net "127.0.0.1" 6 7 2 default_timeout)
    as [Hpool _].
  destruct (Pool.run (Scanner.port_scanner_pool test_net "127.0.0.1" 6 7 2)
              second_finishes_first
              (Pool.init (Scanner.port_scanner_pool test_net "127.0.0.1" 6 7 2)))
    as [s|] eqn:Hrun; [|vm_compute in Hrun; discriminate].
  assert (∃ rs, Pool.pc s = Pool.Returned rs) as [rs Hpc].
  { vm_compute in Hrun. injection Hrun as <-. eexists. reflexivity. }
  destruct (Hpool second_finishes_first s Hrun) as (Hsafe & _ & Hlive).
  exists s, rs. split; [done|]. split; [done|]. split.
  - apply Hlive; [simpl; lia| |done].
    intros port _. apply test_net_threads.
  - by apply Hsafe.
Defined.

(** C9: in every state of every run of [port_scanner] on the thread pool,
    the number of probes in flight is at most the worker count that
    [port_scanner] was given.  Both programs. *)
Theorem in_flight_bounded net host start_port end_port max_threads timeout schedule s :
  (Pool.run (Scanner.port_scanner_pool net host start_port end_port max_threads)
     schedule
     (Pool.init (Scanner.port_scanner_pool net host start_port end_port max_threads))
   = Some s ∨
   Pool.run (Scanner3.port_scanner_pool net host start_port end_port max_threads timeout)
     schedule
     (Pool.init (Scanner3.port_scanner_pool net host start_port end_port max_threads
                   timeout))
   = Some s) →
  Pool.in_flight s ≤ Z.to_nat max_threads.
Proof.
  intros [Hrun|Hrun].
  - apply (reachable_in_flight
             (Scanner.port_scanner_pool net host start_port end_port max_threads)).
    by exists schedule.
  - apply (reachable_in_flight
             (Scanner3.port_scanner_pool net host start_port end_port max_threads
                timeout)).
    by exists schedule.
Qed.

Lemma in_flight_bounded_witness :
  ∃ s,
    Pool.run (Scanner.port_scanner_pool test_net "127.0.0.1" 6 7 2)
      (take 5 second_finishes_first)
      (Pool.init (Scanner.port_scanner_pool test_net "127.0.0.1" 6 7 2)) = Some s ∧
    Pool.in_flight s = 2 ∧ Pool.in_flight s ≤ Z.to_nat 2.
Proof.
  destruct (Pool.run (Scanner.port_scanner_pool test_net "127.0.0.1" 6 7 2)
              (take 5 second_finishes_first)
              (Pool.init (Scanner.port_scanner_pool test_net "127.0.0.1" 6 7 2)))
    as [s|] eqn:Hrun; [|vm_compute in Hrun; discriminate].
  exists s. split; [done|]. split.
  - vm_compute in Hrun. injection Hrun as <-. reflexivity.
  - apply (in_flight_bounded test_net "127.0.0.1" 6 7 2 default_timeout
             (take 5 second_finishes_first)).
    by left.
Defined.





Lemma port_scanner3_events net host start_port end_port max_threads timeout ev :
  ev ∈ events (Scanner3.port_scanner net host start_port end_port max_threads
                 timeout) →
  ∃ port, port ∈ py_range start_port (end_port + 1) ∧
          ev ∈ events (Scanner3.scan_port (net port) host port timeout).
Proof.
  unfold events at 1, Scanner3.port_scanner, local, ThreadPoolExecutor.
  rewrite bind_run.
  destruct (decide (max_threads ≤ 0)%Z) as [Hmax|Hmax].
  { simpl. intros Hev. by apply elem_of_nil in Hev. }
  pose proof (submit_each_queued max_threads 0
                ((λ port, (on_thread_start (net port),
                           Scanner3.submitted_call net host timeout port))
                   <$> py_range start_port (end_port + 1))) as Hqueued.
  destruct (submit_each max_threads 0
              ((λ port, (on_thread_start (net port),
                         Scanner3.submitted_call net host timeout port))
                 <$> py_range start_port (end_port + 1)))
    as [[futures threads] failure].
  simpl in Hqueued.
  assert (∀ f, f ∈ futures →
               ∃ port, port ∈ py_range start_port (end_port + 1) ∧
                       f = Scanner3.submitted_call net host timeout port)
    as Hcalls.
  { intros f Hf. apply Hqueued in Hf. rewrite <-list_fmap_compose in Hf.
    apply list_elem_of_fmap in Hf as (port & -> & Hport). by exists port. }
  destruct failure as [e|].
  - destruct (shutdown_run (S:=list dict) futures threads []) as (log & Hrun & Hlog).
    unfold mret at 1, py_ret at 1. cbv beta iota.
    rewrite !bind_run, Hrun. simpl. rewrite app_nil_r.
    intros (f & Hf & Hev)%Hlog.
    destruct (Hcalls f Hf) as (port & Hport & ->). by exists port.
  - destruct (collect_loop futures []) as (rs & Hrun & _).
    { apply Forall_forall. intros f (port & _ & ->)%Hcalls.
      apply scan_port_returns. }
    unfold mret at 1, py_ret at 1. cbv beta iota.
    rewrite !bind_run, Hrun. simpl. rewrite !app_nil_r.
    intros (l & Hev & Hl)%list_elem_of_join.
    apply list_elem_of_fmap in Hl as (f & -> & Hf).
    destruct (Hcalls f Hf) as (port & Hport & ->). by exists port.
Qed.

(** C10: the two programs define the same [scan_port]; the first program's
    [port_scanner] is the second's at the default timeout, as a sequential
    function and as a body run on the thread pool; that default is 1.0; and
    every timeout the first program sets on a socket is 1.0. *)
Theorem variants_agree net host start_port end_port max_threads :
  Scanner.scan_port = Scanner3.scan_port ∧
  Scanner.port_scanner net host start_port end_port max_threads
  = Scanner3.port_scanner net host start_port end_port max_threads default_timeout ∧
  Scanner.port_scanner_pool net host start_port end_port max_threads
  = Scanner3.port_scanner_pool net host start_port end_port max_threads
      default_timeout ∧
  default_timeout = 1%float ∧
  ∀ t, EvSetTimeout t
         ∈ events (Scanner.port_scanner net host start_port end_port max_threads) →
       t = 1%float.
Proof.
  split; [reflexivity|]. split; [reflexivity|]. split; [reflexivity|].
  split; [reflexivity|].
  intros t Hev.
  apply (port_scanner3_events net host start_port end_port max_threads
           default_timeout) in Hev as (port & _ & Hev).
  apply scan_port_events in Hev.
  rewrite !elem_of_cons, elem_of_nil in Hev.
  destruct Hev as [Hev|[Hev|[Hev|[Hev|[Hev|[]]]]]]; by simplify_eq.
Qed.

(** ** The report *)

Lemma export_to_json_run sys data filename :
  Scanner3.export_to_json sys data filename ()
  = match (match data with
           | r :: _ => r !! "host"
           | [] => Some (VStr "unknown")
           end) with
    | None => ([], (), Raise (Exc KeyError "'host'"))
    | Some host =>
        match on_open sys filename with
        | Err cls msg => ([EvOpen filename], (), Raise (Exc cls msg))
        | Ret _ =>
            match on_file_close sys filename, on_dump sys filename with
            | Err cls msg, _ =>
                ([EvOpen filename; EvJsonDump filename (report_with sys host data);
                  EvFileClose filename], (), Raise (Exc cls msg))
            | Ret _, Err cls msg =>
                ([EvOpen filename; EvJsonDump filename (report_with sys host data);
                  EvFileClose filename], (), Raise (Exc cls msg))
            | Ret _, Ret _ =>
                ([EvOpen filename; EvJsonDump filename (report_with sys host data);
                  EvFileClose filename;
                  EvPrint ("Results saved to " +:+ filename)], (), Ok ())
            end
        end
    end.
Proof.
  unfold Scanner3.export_to_json, Scanner3.report, report_with, getitem.
  rewrite bind_run. destruct data as [|r rest].
  - rewrite bind_run. simpl. rewrite bind_run. unfold call, with_exit.
    destruct (on_open sys filename) as [[]|]; [|done]. simpl.
    by destruct (on_file_close sys filename) as [[]|],
      (on_dump sys filename) as [[]|].
  - rewrite bind_run. destruct (r !! "host") as [host|]; [|done]. simpl.
    rewrite bind_run. unfold call, with_exit.
    destruct (on_open sys filename) as [[]|]; [|done]. simpl.
    by destruct (on_file_close sys filename) as [[]|],
      (on_dump sys filename) as [[]|].
Qed.

(** C7: for a list of results whose first entry, if there is one, has a
    host, the report is assembled without an exception; its host is that of
    the first entry, or "unknown" for the empty list; and its scan_results
    is the list as given.  When the file opens, that report is the one
    thing handed to [json.dump], whether or not the dump and the closing of
    the file then succeed.  Both programs. *)
Theorem report_passes_results_through sys data filename :
  (∀ r rest, data = r :: rest → is_Some (r !! "host")) →
  ∃ doc,
    result_of (Scanner.report sys data) = Ok doc ∧
    result_of (Scanner3.report sys data) = Ok doc ∧
    (data = [] → doc !! "host" = Some (JVal (VStr "unknown"))) ∧
    (∀ r rest, data = r :: rest → doc !! "host" = JVal <$> r !! "host") ∧
    doc !! "scan_results" = Some (JResults data) ∧
    (on_open sys filename = Ret () →
     List.filter is_dump (events (Scanner.export_to_json sys data filename))
     = [EvJsonDump filename doc] ∧
     List.filter is_dump (events (Scanner3.export_to_json sys data filename))
     = [EvJsonDump filename doc]).
Proof.
  intros Hhost.
  assert (∃ host, match data with
                  | r :: _ => r !! "host"
                  | [] => Some (VStr "unknown")
                  end = Some host) as [host Hh].
  { destruct data as [|r rest]; [by eexists|].
    destruct (Hhost r rest eq_refl) as [h Hh]. by exists h. }
  pose proof (export_to_json_run sys data filename) as Hrun.
  rewrite Hh in Hrun.
  change (Scanner.export_to_json sys data filename)
    with (Scanner3.export_to_json sys data filename).
  exists (report_with sys host data).
  assert (result_of (Scanner3.report sys data) = Ok (report_with sys host data))
    as Hdoc.
  { unfold result_of, Scanner3.report, report_with, getitem. rewrite bind_run.
    destruct data as [|r rest]; [by simplify_eq|]. by rewrite Hh. }
  split; [exact Hdoc|]. split; [exact Hdoc|].
  unfold report_with.
  split; [intros ->; by simplify_map_eq|].
  split; [intros r rest ->; by simplify_map_eq|].
  split; [by simplify_map_eq|].
  intros Hopen. unfold events. rewrite Hrun, Hopen.
  by destruct (on_file_close sys filename) as [[]|],
    (on_dump sys filename) as [[]|].
Qed.

Lemma report_passes_results_through_witness :
  ∃ doc,
    result_of (Scanner.report test_system
                 [ {[ "host" := VStr "example.com"; "port" := VInt 80 ]} ]) = Ok doc ∧
    doc !! "host" = Some (JVal (VStr "example.com")) ∧
    doc !! "scan_results"
    = Some (JResults [ {[ "host" := VStr "example.com"; "port" := VInt 80 ]} ]) ∧
    List.filter is_dump
      (events (Scanner.export_to_json test_system
                 [ {[ "host" := VStr "example.com"; "port" := VInt 80 ]} ]
                 "out.json"))
    = [EvJsonDump "out.json" doc].
Proof.
  destruct (report_passes_results_through test_system
              [ {[ "host" := VStr "example.com"; "port" := VInt 80 ]} ] "out.json")
    as (doc & Hdoc & _ & _ & Hhost & Hresults & Hdump).
  - intros r rest [= <- <-]. by eexists.
  - exists doc. split; [done|]. split; [|split; [done|]].
    + by rewrite (Hhost _ _ eq_refl).
    + by apply Hdump.
Defined.

(** ** The entry points *)




(** Another exception of [gethostbyname] is not caught: the process ends
    with a traceback and status 1, again before any probe. *)
Lemma other_resolver_errors_propagate sys a cls msg :
  ¬ ((Scanner3.arg_start a < 1)%Z ∨ (Scanner3.arg_end a > 65535)%Z ∨
     (Scanner3.arg_start a > Scanner3.arg_end a)%Z) →
  ¬ ((Scanner3.arg_threads a < 1)%Z ∨ (Scanner3.arg_threads a > 1000)%Z) →
  cls ≠ gaierror →
  on_gethostbyname sys (Scanner3.arg_host a) = Err cls msg →
  Scanner3.main sys a ()
  = ([EvGetHostByName (Scanner3.arg_host a)], (), Raise (Exc cls msg)).
Proof.
  intros Hrange Hthreads Hcls Hres. unfold Scanner3.main.
  rewrite bind_run. rewrite bool_decide_eq_false_2 by done. simpl.
  rewrite bind_run. rewrite bool_decide_eq_false_2 by done. simpl.
  rewrite bind_run. unfold try_except. rewrite bind_run. unfold call at 1.
  rewrite Hres. simpl. by destruct cls.
Qed.

(** The first program does not validate: with the same range it goes on
    to scan (no port, the range being empty) and writes a report. *)
Lemma first_program_does_not_validate :
  result_of (Scanner.main test_system
               {| Scanner.arg_host := "127.0.0.1"; Scanner.arg_start := 2000;
                  Scanner.arg_end := 1000; Scanner.arg_threads := 50;
                  Scanner.arg_output := None |}) = Ok () ∧
  head (events (Scanner.main test_system
                  {| Scanner.arg_host := "127.0.0.1"; Scanner.arg_start := 2000;
                     Scanner.arg_end := 1000; Scanner.arg_threads := 50;
                     Scanner.arg_output := None |}))
  = Some (EvPrint "Scanning 127.0.0.1 (ports 2000-1000)...").
Proof. split; reflexivity. Qed.

(** The scenario of the specification: ports 1 to 10, five workers, a
    listener on port 7 only, and the timeout that Python reads for 0.2. *)
Lemma end_to_end_scenario :
  ∃ rs, result_of (Scanner3.port_scanner test_net "127.0.0.1" 1 10 5 0x1.999999999999ap-3%float)
        = Ok rs ∧
        length rs = 10 ∧
        (λ d, d !! "port") <$> filter (λ d, d !! "status" = Some (VStr "open")) rs
        = [Some (VInt 7)].
Proof. eexists. split; [reflexivity|]. split; vm_compute; reflexivity. Qed.

(** * Further properties of the code *)

(** ** The calls of one probe *)

Lemma probe_creates_one_socket sl host port timeout :
  length (List.filter is_socket (events (Scanner3.scan_port sl host port timeout)))
  = 1.
Proof. run_probe sl host port timeout; reflexivity. Qed.

Lemma probe_connects_once sl host port timeout :
  List.filter is_connect (events (Scanner3.scan_port sl host port timeout))
  = if reaches_connect sl timeout then [EvConnectEx host port] else [].
Proof. unfold reaches_connect. run_probe sl host port timeout; reflexivity. Qed.

(** X1: a probe creates one socket.  When the creation succeeds the socket
    is closed once, as the last call of the probe, whatever happened in
    between; when it raises, nothing else is called.  Both programs. *)
Theorem socket_closed_on_every_path sl host port timeout :
  Scanner.scan_port sl host port timeout = Scanner3.scan_port sl host port timeout ∧
  length (List.filter is_socket (events (Scanner.scan_port sl host port timeout))) = 1 ∧
  match on_socket sl with
  | Ret _ =>
      last (events (Scanner.scan_port sl host port timeout)) = Some EvClose ∧
      length (List.filter is_close (events (Scanner.scan_port sl host port timeout))) = 1
  | Err _ _ => events (Scanner.scan_port sl host port timeout) = [EvSocket]
  end.
Proof.
  split; [reflexivity|]. run_probe sl host port timeout; by repeat split.
Qed.

(** X2: a probe makes at most one connect attempt, to the host and port it
    was given, and makes it exactly when its socket was created and took
    the timeout: there is no retry.  Both programs. *)
Theorem single_connect_attempt sl host port timeout :
  Scanner.scan_port sl host port timeout = Scanner3.scan_port sl host port timeout ∧
  List.filter is_connect (events (Scanner.scan_port sl host port timeout))
  = if reaches_connect sl timeout then [EvConnectEx host port] else [].
Proof.
  split; [reflexivity|]. apply probe_connects_once.
Qed.

(** X3: the service name is looked up exactly when the connect succeeded,
    once, for the probed port over "tcp"; and when the lookup answers, its
    answer is the service of the result.  Both programs. *)
Theorem service_looked_up_when_open sl host port timeout :
  ∃ d, result_of (Scanner.scan_port sl host port timeout) = Ok d ∧
       result_of (Scanner3.scan_port sl host port timeout) = Ok d ∧
       List.filter is_lookup (events (Scanner.scan_port sl host port timeout))
       = (if connects sl host port timeout
          then [EvGetServByPort port "tcp"] else []) ∧
       (connects sl host port timeout = false →
        d !! "service" = Some (VStr "unknown")) ∧
       (∀ service, connects sl host port timeout = true →
                   on_getservbyport sl port "tcp" = Ret service →
                   d !! "service" = Some (VStr service)).
Proof.
  destruct (scan_port_returns sl host port timeout) as [d Hd].
  exists d. split; [done|]. split; [done|].
  pose proof (scan_port_service sl host port timeout d Hd) as Hservice.
  split; [|split].
  - clear. unfold connects. run_probe sl host port timeout; try reflexivity.
    all: by destruct rc.
  - intros Hno. rewrite Hservice. unfold connects in Hno.
    destruct (on_socket sl), (on_settimeout sl timeout),
      (on_connect_ex sl host port timeout) as [[]|]; try done.
  - intros service Hyes Hlookup. rewrite Hservice, Hlookup.
    unfold connects in Hyes.
    destruct (on_socket sl), (on_settimeout sl timeout),
      (on_connect_ex sl host port timeout) as [[]|]; try done.
Qed.

(** ** The calls of a scan *)

Lemma filter_join (f : event → bool) (ls : list (list event)) :
  List.filter f (mjoin ls) = mjoin (List.filter f <$> ls).
Proof.
  induction ls as [|l ls IH]; [done|].
  simpl. rewrite List.filter_app. f_equal. exact IH.
Qed.

Lemma join_selected {A} (b : A → bool) (h : A → event) (l : list A) :
  mjoin ((λ x, if b x then [h x] else []) <$> l) = h <$> List.filter b l.
Proof.
  induction l as [|x l IH]; [done|].
  simpl. destruct (b x); simpl; [f_equal|]; exact IH.
Qed.


Lemma port_scanner3_log net host start_port end_port max_threads timeout :
  (1 ≤ max_threads)%Z →
  threads_start net start_port end_port →
  events (Scanner3.port_scanner net host start_port end_port max_threads timeout)
  = mjoin ((λ port, events (Scanner3.scan_port (net port) host port timeout))
             <$> py_range start_port (end_port + 1)).
Proof.
  intros Hmax Hthreads.
  destruct (port_scanner3_spec net host start_port end_port max_threads timeout)
    as (rs & Hrun & _); [lia|done|].
  unfold events at 1. by rewrite Hrun.
Qed.

(** X4: for an empty range ([end_port] below [start_port]) and a positive
    worker count, [port_scanner] returns the empty list without a single
    call to the socket layer.  Both programs. *)
Theorem empty_range_scans_nothing net host start_port end_port max_threads timeout :
  (end_port < start_port)%Z →
  (1 ≤ max_threads)%Z →
  Scanner.port_scanner net host start_port end_port max_threads ()
  = ([], (), Ok []) ∧
  Scanner3.port_scanner net host start_port end_port max_threads timeout ()
  = ([], (), Ok []).
Proof.
  intros Hempty Hmax.
  unfold Scanner.port_scanner, Scanner3.port_scanner, local, ThreadPoolExecutor,
    py_range.
  rewrite seqZ_nil by lia. rewrite !bind_run.
  destruct (decide (max_threads ≤ 0)%Z); [lia|]. done.
Qed.

Lemma empty_range_scans_nothing_witness :
  Scanner.port_scanner test_net "127.0.0.1" 2000 1000 50 () = ([], (), Ok []).
Proof.
  apply (empty_range_scans_nothing test_net "127.0.0.1" 2000 1000 50
           default_timeout); lia.
Defined.

(** X5: with a worker count that is not positive, [port_scanner] raises
    the [ValueError] of the pool's constructor before any call to the socket
    layer, whatever the range; on the thread pool the main thread has
    raised from the start and no thread can take a step.  Both programs. *)
Theorem worker_count_must_be_positive net host start_port end_port max_threads timeout :
  (max_threads ≤ 0)%Z →
  Scanner.port_scanner net host start_port end_port max_threads ()
  = ([], (), Raise (Exc ValueError "max_workers must be greater than 0")) ∧
  Scanner3.port_scanner net host start_port end_port max_threads timeout ()
  = ([], (), Raise (Exc ValueError "max_workers must be greater than 0")) ∧
  Pool.pc (Pool.init (Scanner3.port_scanner_pool net host start_port end_port
                        max_threads timeout))
  = Pool.Raised (Exc ValueError "max_workers must be greater than 0") ∧
  ∀ a, Pool.step (Scanner3.port_scanner_pool net host start_port end_port
                    max_threads timeout) a
         (Pool.init (Scanner3.port_scanner_pool net host start_port end_port
                       max_threads timeout)) = None.
Proof.
  intros Hmax.
  unfold Scanner.port_scanner, Scanner3.port_scanner, local, ThreadPoolExecutor.
  rewrite !bind_run. unfold Pool.init. simpl.
  destruct (decide (max_threads ≤ 0)%Z); [|lia].
  repeat split. intros [idle_found|w|w]; reflexivity.
Qed.

Lemma worker_count_must_be_positive_witness :
  Scanner.port_scanner test_net "127.0.0.1" 1 1024 0 ()
  = ([], (), Raise (Exc ValueError "max_workers must be greater than 0")).
Proof.
  apply (worker_count_must_be_positive test_net "127.0.0.1" 1 1024 0
           default_timeout); lia.
Defined.

(** X6: every call that a scan of the second program makes belongs to the
    probe of a port of the range: it is the creation or the closing of a
    socket, the setting of the timeout that [port_scanner] was given, a
    connect to the given host and that port, or the lookup of that port.
    The first program does the same with the timeout 1.0. *)
Theorem scan_calls_stay_in_range net host start_port end_port max_threads timeout ev :
  (ev ∈ events (Scanner3.port_scanner net host start_port end_port max_threads
                  timeout) →
   ∃ port, (start_port ≤ port ≤ end_port)%Z ∧
           ev ∈ [EvSocket; EvSetTimeout timeout; EvConnectEx host port;
                 EvGetServByPort port "tcp"; EvClose]) ∧
  (ev ∈ events (Scanner.port_scanner net host start_port end_port max_threads) →
   ∃ port, (start_port ≤ port ≤ end_port)%Z ∧
           ev ∈ [EvSocket; EvSetTimeout 1%float; EvConnectEx host port;
                 EvGetServByPort port "tcp"; EvClose]).
Proof.
  assert (∀ t,
    ev ∈ events (Scanner3.port_scanner net host start_port end_port max_threads t) →
    ∃ port, (start_port ≤ port ≤ end_port)%Z ∧
            ev ∈ [EvSocket; EvSetTimeout t; EvConnectEx host port;
                  EvGetServByPort port "tcp"; EvClose]) as Hboth.
  { intros t (port & Hport & Hev)%port_scanner3_events.
    unfold py_range in Hport. apply elem_of_seqZ in Hport.
    exists port. split; [lia|].
    exact (scan_port_events (net port) host port t ev Hev). }
  split; [apply Hboth|apply (Hboth default_timeout)].
Qed.

Lemma scan_calls_stay_in_range_witness :
  ∃ port, (6 ≤ port ≤ 7)%Z ∧
          EvGetServByPort 7 "tcp"
          ∈ [EvSocket; EvSetTimeout 1%float; EvConnectEx "127.0.0.1" port;
             EvGetServByPort port "tcp"; EvClose].
Proof.
  apply (scan_calls_stay_in_range test_net "127.0.0.1" 6 7 2 default_timeout
           (EvGetServByPort 7 "tcp")).
  apply list_elem_of_In. vm_compute.
  repeat (first [left; reflexivity | right]).
Defined.

(** X7: with a positive worker count and worker threads that can be
    started, a scan creates as many sockets as the range has ports, and its
    connect attempts are, in some order, one for each port whose socket
    was created and took the timeout: none for the others and none twice.
    Both programs. *)
Theorem one_probe_per_port net host start_port end_port max_threads timeout :
  (1 ≤ max_threads)%Z →
  threads_start net start_port end_port →
  (length (List.filter is_socket
             (events (Scanner3.port_scanner net host start_port end_port
                        max_threads timeout)))
   = Z.to_nat (end_port + 1 - start_port) ∧
   List.filter is_connect
     (events (Scanner3.port_scanner net host start_port end_port max_threads
                timeout))
   ≡ₚ EvConnectEx host
        <$> List.filter (λ port, reaches_connect (net port) timeout)
              (py_range start_port (end_port + 1))) ∧
  (length (List.filter is_socket
             (events (Scanner.port_scanner net host start_port end_port
                        max_threads)))
   = Z.to_nat (end_port + 1 - start_port) ∧
   List.filter is_connect
     (events (Scanner.port_scanner net host start_port end_port max_threads))
   ≡ₚ EvConnectEx host
        <$> List.filter (λ port, reaches_connect (net port) default_timeout)
              (py_range start_port (end_port + 1))).
Proof.
  intros Hmax Hthreads.
  assert (∀ t,
    length (List.filter is_socket
              (events (Scanner3.port_scanner net host start_port end_port
                         max_threads t)))
    = Z.to_nat (end_port + 1 - start_port) ∧
    List.filter is_connect
      (events (Scanner3.port_scanner net host start_port end_port max_threads t))
    ≡ₚ EvConnectEx host
         <$> List.filter (λ port, reaches_connect (net port) t)
               (py_range start_port (end_port + 1))) as Hboth.
  { intros t. rewrite port_scanner3_log by done. rewrite !filter_join.
    rewrite <-!list_fmap_compose. split.
    - unfold py_range. rewrite <-(length_seqZ start_port (end_port + 1 - start_port)).
      generalize (seqZ start_port (end_port + 1 - start_port)).
      intros l. induction l as [|port l IH]; [done|].
      rewrite fmap_cons. simpl. rewrite length_app, IH.
      by rewrite probe_creates_one_socket.
    - rewrite <-(join_selected (λ port, reaches_connect (net port) t)
                   (EvConnectEx host)).
      apply reflexive_eq.
      f_equal. apply list_fmap_ext. intros _ port _. simpl.
      apply probe_connects_once. }
  split; [apply Hboth|apply (Hboth default_timeout)].
Qed.

Lemma one_probe_per_port_witness :
  length (List.filter is_connect
            (events (Scanner.port_scanner test_net "127.0.0.1" 8 10 2)))
  = 2.
Proof.
  destruct (one_probe_per_port test_net "127.0.0.1" 8 10 2 default_timeout)
    as [_ [_ Hconnect]]; [lia| |].
  { intros port _. apply test_net_threads. }
  rewrite Hconnect. reflexivity.
Defined.

(** ** Writing the report *)

(** X8: when the output file cannot be opened, [export_to_json] raises the
    exception of [open]: the report was assembled, but nothing is dumped
    and "Results saved" is not printed.  Both programs. *)
Theorem report_not_written_when_open_fails sys data filename cls msg :
  (∀ r rest, data = r :: rest → is_Some (r !! "host")) →
  on_open sys filename = Err cls msg →
  Scanner.export_to_json sys data filename ()
  = ([EvOpen filename], (), Raise (Exc cls msg)) ∧
  Scanner3.export_to_json sys data filename ()
  = ([EvOpen filename], (), Raise (Exc cls msg)).
Proof.
  intros Hhost Hopen.
  assert (Scanner3.export_to_json sys data filename ()
          = ([EvOpen filename], (), Raise (Exc cls msg))) as Hrun.
  { rewrite export_to_json_run, Hopen. destruct data as [|r rest]; [done|].
    by destruct (Hhost r rest eq_refl) as [h ->]. }
  split; exact Hrun.
Qed.

Lemma report_not_written_when_open_fails_witness :
  Scanner.export_to_json
    {| net := test_net; on_gethostbyname := λ _, Ret "127.0.0.1";
       clock_now := "2024-05-01T12:00:00";
       on_open := λ _, Err OSError "[Errno 13] Permission denied: 'out.json'";
       on_dump := λ _, Ret (); on_file_close := λ _, Ret () |}
    [] "out.json" ()
  = ([EvOpen "out.json"], (),
     Raise (Exc OSError "[Errno 13] Permission denied: 'out.json'")).
Proof.
  apply (report_not_written_when_open_fails
           {| net := test_net; on_gethostbyname := λ _, Ret "127.0.0.1";
              clock_now := "2024-05-01T12:00:00";
              on_open := λ _, Err OSError "[Errno 13] Permission denied: 'out.json'";
              on_dump := λ _, Ret (); on_file_close := λ _, Ret () |}
           [] "out.json" OSError "[Errno 13] Permission denied: 'out.json'").
  - intros r rest Hdata. discriminate.
  - reflexivity.
Defined.

(** X9: given a list whose first entry has no "host", [export_to_json]
    raises [KeyError] for that key before it opens the file: no call is
    made.  Both programs. *)
Theorem report_needs_host_of_first_result sys r rest filename :
  r !! "host" = None →
  Scanner.export_to_json sys (r :: rest) filename ()
  = ([], (), Raise (Exc KeyError "'host'")) ∧
  Scanner3.export_to_json sys (r :: rest) filename ()
  = ([], (), Raise (Exc KeyError "'host'")).
Proof.
  intros Hhost.
  assert (Scanner3.export_to_json sys (r :: rest) filename ()
          = ([], (), Raise (Exc KeyError "'host'"))) as Hrun.
  { by rewrite export_to_json_run, Hhost. }
  split; exact Hrun.
Qed.

Lemma report_needs_host_of_first_result_witness :
  Scanner.export_to_json test_system [ {[ "port" := VInt 80 ]} ] "out.json" ()
  = ([], (), Raise (Exc KeyError "'host'")).
Proof.
  apply (report_needs_host_of_first_result test_system {[ "port" := VInt 80 ]} []
           "out.json").
  reflexivity.
Defined.

(** ** The summary *)

Lemma omap_length_le {A B} (f : A → option B) (l : list A) :
  length (omap f l) ≤ length l.
Proof.
  induction l as [|x l IH]; [done|].
  cbn [omap list_omap length]. destruct (f x); cbn [length]; lia.
Qed.

Lemma getitem_bind {S B} (d : dict) (key : string) (f : pyval → Py S B) (s : S) :
  (getitem d key ≫= f) s
  = match d !! key with
    | Some v => f v s
    | None => ([], s, Raise (Exc KeyError ("'" +:+ key +:+ "'")))
    end.
Proof.
  rewrite (bind_run (getitem d key)). unfold getitem.
  destruct (d !! key) as [v|]; [|done]. simpl.
  by destruct (f v s) as [[l s'] o].
Qed.

Lemma open_ports_of_run {S} (results : list dict) (s : S) :
  Forall (λ r, is_Some (r !! "status") ∧ is_Some (r !! "port")) results →
  open_ports_of results s
  = ([], s, Ok (omap (λ r, r !! "port") (List.filter is_open results))).
Proof.
  induction 1 as [|r rest [[status Hstatus] [port Hport]] _ IH]; [done|].
  cbn [open_ports_of List.filter]. unfold is_open at 1.
  rewrite (getitem_bind r "status"), Hstatus.
  destruct (decide (status = VStr "open")) as [->|Hne].
  - rewrite bool_decide_eq_true_2 by done.
    rewrite (getitem_bind r "port"), Hport.
    rewrite (bind_run (open_ports_of rest)), IH. simpl. by rewrite Hport.
  - rewrite bool_decide_eq_false_2 by congruence. done.
Qed.

(** X10: for results that all have a status and a port, the list
    comprehension of the summary does not raise and yields the ports of
    the results whose status is "open", in the order of the results. *)
Theorem summary_lists_open_ports (results : list dict) :
  Forall (λ r, is_Some (r !! "status") ∧ is_Some (r !! "port")) results →
  ∃ open_ports,
    result_of (open_ports_of results) = Ok open_ports ∧
    open_ports = omap (λ r, r !! "port") (List.filter is_open results) ∧
    length open_ports ≤ length results ∧
    ∀ port, port ∈ open_ports ↔
            ∃ r, r ∈ results ∧ r !! "status" = Some (VStr "open") ∧
                 r !! "port" = Some port.
Proof.
  intros Hall. eexists. split.
  { unfold result_of. by rewrite open_ports_of_run. }
  split; [done|]. split.
  - etrans; [apply omap_length_le|]. apply List.filter_length_le.
  - intros port. rewrite list_elem_of_omap. split.
    + intros (r & Hr & Hport). exists r. split; [|split; [|done]].
      * apply list_elem_of_In in Hr. apply List.filter_In in Hr as [Hr _].
        by apply list_elem_of_In.
      * apply list_elem_of_In in Hr. apply List.filter_In in Hr as [_ Hr].
        unfold is_open in Hr. by apply bool_decide_eq_true in Hr.
    + intros (r & Hr & Hstatus & Hport). exists r. split; [|done].
      apply list_elem_of_In, List.filter_In. split.
      * by apply list_elem_of_In.
      * unfold is_open. by apply bool_decide_eq_true.
Qed.

Lemma summary_lists_open_ports_witness :
  ∃ open_ports,
    result_of (open_ports_of
                 [ {[ "port" := VInt 22; "status" := VStr "closed" ]};
                   {[ "port" := VInt 80; "status" := VStr "open" ]} ])
    = Ok open_ports ∧
    open_ports = [VInt 80].
Proof.
  destruct (summary_lists_open_ports
              [ {[ "port" := VInt 22; "status" := VStr "closed" ]};
                {[ "port" := VInt 80; "status" := VStr "open" ]} ])
    as (open_ports & Hrun & Hports & _).
  - repeat constructor; by eexists.
  - exists open_ports. split; [done|]. rewrite Hports. reflexivity.
Defined.

(** X11: the summary raises [KeyError] at the first result that has no
    status, whatever follows it. *)
Theorem summary_needs_status (before : list dict) (r : dict) (after : list dict) :
  Forall (λ r, is_Some (r !! "status") ∧ is_Some (r !! "port")) before →
  r !! "status" = None →
  result_of (open_ports_of (before ++ r :: after))
  = Raise (Exc KeyError "'status'").
Proof.
  intros Hbefore Hstatus. unfold result_of.
  generalize (). intros s.
  induction Hbefore as [|r' rest [[status Hs] [port Hp]] _ IH].
  - cbn [app open_ports_of]. by rewrite (getitem_bind r "status"), Hstatus.
  - cbn [app open_ports_of]. rewrite (getitem_bind r' "status"), Hs.
    destruct (decide (status = VStr "open")) as [->|Hne]; [|done].
    rewrite (getitem_bind r' "port"), Hp.
    rewrite (bind_run (open_ports_of (rest ++ r :: after))).
    destruct (open_ports_of (rest ++ r :: after) s) as [[l s'] [a|e]];
      simpl in *; by simplify_eq.
Qed.

Lemma summary_needs_status_witness :
  result_of (open_ports_of
               ([ {[ "port" := VInt 22; "status" := VStr "open" ]} ]
                ++ {[ "port" := VInt 80 ]} :: []))
  = Raise (Exc KeyError "'status'").
Proof.
  apply summary_needs_status.
  - repeat constructor; by eexists.
  - reflexivity.
Defined.

(** ** The entry points, from the command line to the summary *)











(** X16: the second program checks in a fixed order and reports the first
    failure only: the range first, then the thread count, both before the
    host is resolved, each with its own message; the host is resolved only
    when both are valid, and the message for a host that does not resolve
    names the host. *)
Theorem validation_order_and_messages sys a :
  ((Scanner3.arg_start a < 1 ∨ Scanner3.arg_end a > 65535 ∨
    Scanner3.arg_start a > Scanner3.arg_end a)%Z →
   events (Scanner3.main sys a)
   = [EvUsageError
        "Invalid port range. Ports must be between 1-65535 and start <= end."]) ∧
  (¬ (Scanner3.arg_start a < 1 ∨ Scanner3.arg_end a > 65535 ∨
      Scanner3.arg_start a > Scanner3.arg_end a)%Z →
   (Scanner3.arg_threads a < 1 ∨ Scanner3.arg_threads a > 1000)%Z →
   events (Scanner3.main sys a)
   = [EvUsageError "Threads must be between 1 and 1000."]) ∧
  (¬ (Scanner3.arg_start a < 1 ∨ Scanner3.arg_end a > 65535 ∨
      Scanner3.arg_start a > Scanner3.arg_end a)%Z →
   ¬ (Scanner3.arg_threads a < 1 ∨ Scanner3.arg_threads a > 1000)%Z →
   ∀ msg, on_gethostbyname sys (Scanner3.arg_host a) = Err gaierror msg →
   events (Scanner3.main sys a)
   = [EvGetHostByName (Scanner3.arg_host a);
      EvUsageError ("Cannot resolve host " +:+ Scanner3.arg_host a)]).
Proof.
  unfold Scanner3.main, events. split; [|split].
  - intros Hrange. rewrite bind_run.
    by rewrite bool_decide_eq_true_2 by done.
  - intros Hrange Hthreads. rewrite bind_run.
    rewrite bool_decide_eq_false_2 by done. simpl. rewrite bind_run.
    by rewrite bool_decide_eq_true_2 by done.
  - intros Hrange Hthreads msg Hres. rewrite bind_run.
    rewrite bool_decide_eq_false_2 by done. simpl. rewrite bind_run.
    rewrite bool_decide_eq_false_2 by done. simpl.
    rewrite bind_run. unfold try_except. rewrite bind_run. unfold call at 1.
    by rewrite Hres.
Qed.

Lemma validation_order_and_messages_witness :
  events (Scanner3.main test_system
            {| Scanner3.arg_host := "127.0.0.1"; Scanner3.arg_start := 0;
               Scanner3.arg_end := 70000; Scanner3.arg_threads := 5000;
               Scanner3.arg_timeout := default_timeout;
               Scanner3.arg_output := None |})
  = [EvUsageError
       "Invalid port range. Ports must be between 1-65535 and start <= end."].
Proof.
  apply (validation_order_and_messages test_system
           {| Scanner3.arg_host := "127.0.0.1"; Scanner3.arg_start := 0;
              Scanner3.arg_end := 70000; Scanner3.arg_threads := 5000;
              Scanner3.arg_timeout := default_timeout;
              Scanner3.arg_output := None |}).
  left. simpl. lia.
Defined.

(** ** More on the thread pool *)

Lemma step_threads_started (c : Pool.config) a s s' :
  Pool.step c a s = Some s' →
  length (Pool.workers s) ≤ Pool.submitted s →
  length (Pool.workers s') ≤ Pool.submitted s'.
Proof.
  intros Hstep Hle. destruct a as [idle_found|w|w]; simpl in Hstep.
  - unfold Pool.main_step in Hstep.
    destruct (Pool.pc s) as [[|port todo]|[|f pending] rs|e|rs|e];
      simplify_eq; simpl; try done.
    + pose proof (adjust_thread_count_cases c idle_found (Pool.start_thread c port)
                    (Pool.workers s)) as Hcases.
      destruct (Pool.adjust_thread_count c idle_found (Pool.start_thread c port)
                  (Pool.workers s)) as [ws'|e]; simplify_eq; simpl; [|lia].
      destruct Hcases as [[->|[-> _]] _]; [lia|].
      rewrite length_app. simpl. lia.
    + destruct (Pool.quiescent s); by simplify_eq.
    + destruct (Pool.futures s !! f) as [[r|e]|]; by simplify_eq.
    + destruct (Pool.quiescent s); by simplify_eq.
  - destruct (Pool.workers s !! w) as [[|]|], (Pool.queue s) as [|[f p] q];
      simplify_eq.
    simpl. by rewrite length_insert.
  - destruct (Pool.workers s !! w) as [[|f p]|]; simplify_eq.
    simpl. by rewrite length_insert.
Qed.

Lemma step_submitted (c : Pool.config) a s s' :
  Pool.step c a s = Some s' →
  Pool.submitted s
  + match Pool.pc s with Pool.Submitting todo => length todo | _ => 0 end
  ≤ length (Pool.ports c) →
  Pool.submitted s'
  + match Pool.pc s' with Pool.Submitting todo => length todo | _ => 0 end
  ≤ length (Pool.ports c).
Proof.
  intros Hstep Hle. destruct a as [idle_found|w|w]; simpl in Hstep.
  - unfold Pool.main_step in Hstep.
    destruct (Pool.pc s) as [[|port todo]|[|f pending] rs|e|rs|e] eqn:Hpc;
      simplify_eq; simpl in *; try lia.
    + destruct (Pool.adjust_thread_count c idle_found (Pool.start_thread c port)
                  (Pool.workers s)) as [ws'|e]; simplify_eq; simpl; lia.
    + destruct (Pool.quiescent s); simplify_eq. simpl. lia.
    + destruct (Pool.futures s !! f) as [[r|e]|]; simplify_eq; simpl; lia.
    + destruct (Pool.quiescent s); simplify_eq. simpl. lia.
  - destruct (Pool.workers s !! w) as [[|]|], (Pool.queue s) as [|[f p] q];
      simplify_eq.
    simpl. by destruct (Pool.pc s).
  - destruct (Pool.workers s !! w) as [[|f p]|]; simplify_eq.
    simpl. by destruct (Pool.pc s).
Qed.

Lemma run_threads_started (c : Pool.config) schedule s s' :
  Pool.run c schedule s = Some s' →
  length (Pool.workers s) ≤ Pool.submitted s ∧
  Pool.submitted s
  + match Pool.pc s with Pool.Submitting todo => length todo | _ => 0 end
  ≤ length (Pool.ports c) →
  length (Pool.workers s') ≤ Pool.submitted s' ∧
  Pool.submitted s'
  + match Pool.pc s' with Pool.Submitting todo => length todo | _ => 0 end
  ≤ length (Pool.ports c).
Proof.
  revert s. induction schedule as [|a rest IH]; intros s Hrun [H1 H2];
    simpl in Hrun.
  - by simplify_eq.
  - destruct (Pool.step c a s) as [s1|] eqn:Hstep; [|done].
    apply (IH s1 Hrun). split.
    + by eapply step_threads_started.
    + by eapply step_submitted.
Qed.

(** X17: on the thread pool a scan never has more worker threads than
    calls submitted so far, hence never more threads, and never more probes
    in flight, than the range has ports, however large the worker count.
    Both programs. *)
Theorem threads_bounded_by_ports net host start_port end_port max_threads timeout schedule s :
  (Pool.run (Scanner.port_scanner_pool net host start_port end_port max_threads)
     schedule
     (Pool.init (Scanner.port_scanner_pool net host start_port end_port max_threads))
   = Some s ∨
   Pool.run (Scanner3.port_scanner_pool net host start_port end_port max_threads timeout)
     schedule
     (Pool.init (Scanner3.port_scanner_pool net host start_port end_port max_threads
                   timeout))
   = Some s) →
  length (Pool.workers s) ≤ Pool.submitted s ∧
  Pool.submitted s ≤ Z.to_nat (end_port + 1 - start_port) ∧
  Pool.in_flight s ≤ Z.to_nat (end_port + 1 - start_port).
Proof.
  assert (∀ t,
    Pool.run (Scanner3.port_scanner_pool net host start_port end_port max_threads t)
      schedule
      (Pool.init (Scanner3.port_scanner_pool net host start_port end_port
                    max_threads t)) = Some s →
    length (Pool.workers s) ≤ Pool.submitted s ∧
    Pool.submitted s ≤ Z.to_nat (end_port + 1 - start_port) ∧
    Pool.in_flight s ≤ Z.to_nat (end_port + 1 - start_port)) as Hboth.
  { intros t Hrun. apply run_threads_started in Hrun as [H1 H2].
    - simpl in H2. unfold py_range in H2. rewrite length_seqZ in H2.
      pose proof (running_length (Pool.workers s)) as H3.
      unfold Pool.in_flight. lia.
    - unfold Pool.init. simpl. split; [lia|].
      destruct (decide (max_threads ≤ 0)%Z); simpl; lia. }
  intros [Hrun|Hrun]; [apply (Hboth default_timeout)|apply (Hboth timeout)];
    exact Hrun.
Qed.

Lemma threads_bounded_by_ports_witness :
  ∃ s,
    Pool.run (Scanner.port_scanner_pool test_net "127.0.0.1" 6 7 1000)
      (take 5 second_finishes_first)
      (Pool.init (Scanner.port_scanner_pool test_net "127.0.0.1" 6 7 1000))
    = Some s ∧
    Pool.in_flight s ≤ 2.
Proof.
  destruct (Pool.run (Scanner.port_scanner_pool test_net "127.0.0.1" 6 7 1000)
              (take 5 second_finishes_first)
              (Pool.init (Scanner.port_scanner_pool test_net "127.0.0.1" 6 7 1000)))
    as [s|] eqn:Hrun; [|vm_compute in Hrun; discriminate].
  exists s. split; [done|].
  apply (threads_bounded_by_ports test_net "127.0.0.1" 6 7 1000 default_timeout
           (take 5 second_finishes_first)).
  by left.
Defined.

(** X18: on the thread pool, whatever the schedule, the outcome stored in
    the future numbered [f] is the outcome of the probe of the port
    [start_port + f], made with the scan's host and timeout: the results of
    different ports are never mixed up.  Both programs. *)
Theorem future_holds_result_of_its_port net host start_port end_port max_threads timeout schedule s f o :
  (Pool.run (Scanner.port_scanner_pool net host start_port end_port max_threads)
     schedule
     (Pool.init (Scanner.port_scanner_pool net host start_port end_port max_threads))
   = Some s ∧ timeout = default_timeout ∨
   Pool.run (Scanner3.port_scanner_pool net host start_port end_port max_threads timeout)
     schedule
     (Pool.init (Scanner3.port_scanner_pool net host start_port end_port max_threads
                   timeout))
   = Some s) →
  Pool.futures s !! f = Some o →
  (start_port + Z.of_nat f ≤ end_port)%Z ∧
  o = result_of (Scanner3.scan_port (net (start_port + Z.of_nat f)%Z) host
                   (start_port + Z.of_nat f) timeout).
Proof.
  intros Hrun Hf.
  assert (Pool.reachable
            (Scanner3.port_scanner_pool net host start_port end_port max_threads
               timeout) s) as Hs.
  { exists schedule. destruct Hrun as [[Hrun ->]|Hrun]; exact Hrun. }
  apply inv_reachable in Hs.
  destruct (Pool.inv_done _ _ Hs f o Hf) as (port & Hport & ->).
  simpl in Hport. unfold py_range in Hport.
  apply lookup_seqZ in Hport as [-> Hlt]. split; [lia|]. reflexivity.
Qed.

Lemma future_holds_result_of_its_port_witness :
  ∃ s o,
    Pool.run (Scanner.port_scanner_pool test_net "127.0.0.1" 6 7 2)
      (take 6 second_finishes_first)
      (Pool.init (Scanner.port_scanner_pool test_net "127.0.0.1" 6 7 2))
    = Some s ∧
    Pool.futures s !! 0 = None ∧
    Pool.futures s !! 1 = Some o ∧
    o = result_of (Scanner3.scan_port (test_net 7) "127.0.0.1" 7 default_timeout).
Proof.
  destruct (Pool.run (Scanner.port_scanner_pool test_net "127.0.0.1" 6 7 2)
              (take 6 second_finishes_first)
              (Pool.init (Scanner.port_scanner_pool test_net "127.0.0.1" 6 7 2)))
    as [s|] eqn:Hrun; [|vm_compute in Hrun; discriminate].
  assert (Pool.futures s !! 0 = None ∧ ∃ o, Pool.futures s !! 1 = Some o)
    as [Hnone [o Ho]].
  { vm_compute in Hrun. injection Hrun as <-. split; [reflexivity|].
    eexists. reflexivity. }
  exists s, o. split; [done|]. split; [done|]. split; [done|].
  apply (future_holds_result_of_its_port test_net "127.0.0.1" 6 7 2
           default_timeout (take 6 second_finishes_first) s 1 o); [|done].
  left. by split.
Defined.

(** ** When a worker thread cannot be started *)

Lemma no_thread_no_result (c : Pool.config) p rest cls msg schedule s :
  (0 < Pool.max_workers c)%Z →
  Pool.ports c = p :: rest →
  Pool.start_thread c p = Err cls msg →
  Pool.run c schedule (Pool.init c) = Some s →
  Pool.workers s = [] ∧
  (Pool.pc s = Pool.Submitting (p :: rest) ∨
   Pool.pc s = Pool.Failing (Exc cls msg) ∨
   Pool.pc s = Pool.Raised (Exc cls msg)).
Proof.
  intros Hmax Hports Hstart.
  assert (Pool.workers (Pool.init c) = [] ∧
          (Pool.pc (Pool.init c) = Pool.Submitting (p :: rest) ∨
           Pool.pc (Pool.init c) = Pool.Failing (Exc cls msg) ∨
           Pool.pc (Pool.init c) = Pool.Raised (Exc cls msg))) as Hinit.
  { unfold Pool.init. simpl. split; [done|]. left.
    destruct (decide (Pool.max_workers c ≤ 0)%Z); [lia|]. by rewrite Hports. }
  revert Hinit. generalize (Pool.init c). revert s.
  induction schedule as [|a schedule IH]; intros s s0 Hs0 Hrun; simpl in Hrun.
  - by simplify_eq.
  - destruct (Pool.step c a s0) as [s1|] eqn:Hstep; [|done].
    apply (IH s s1); [|done]. clear IH Hrun.
    destruct Hs0 as [Hw Hpc]. destruct a as [b|w|w]; simpl in Hstep.
    + unfold Pool.main_step in Hstep.
      destruct Hpc as [Hpc|[Hpc|Hpc]]; rewrite Hpc in Hstep.
      * unfold Pool.adjust_thread_count in Hstep. rewrite Hw, Hstart in Hstep.
        rewrite bool_decide_eq_true_2, andb_false_r in Hstep by done.
        simpl in Hstep.
        destruct (decide (Z.of_nat 0 < Pool.max_workers c)%Z); [|lia].
        simplify_eq. simpl. auto.
      * unfold Pool.quiescent in Hstep. rewrite Hw in Hstep.
        rewrite bool_decide_eq_true_2 in Hstep by (split; [by right|done]).
        simplify_eq. simpl. auto.
      * done.
    + by rewrite Hw in Hstep.
    + by rewrite Hw in Hstep.
Qed.

(** X19: with a positive worker count and a range that has a port, when
    the first [submit] cannot start its worker thread, [port_scanner]
    raises the exception of the thread start and no probe runs: no call to
    the socket layer is made.  On the thread pool, no run has a probe in
    flight or returns a list, and the run of the main thread alone ends in
    that exception.  Both programs. *)
Theorem scan_raises_when_no_thread_starts net host start_port end_port max_threads timeout cls msg :
  (1 ≤ max_threads)%Z →
  (start_port ≤ end_port)%Z →
  on_thread_start (net start_port) = Err cls msg →
  Scanner.port_scanner net host start_port end_port max_threads ()
  = ([], (), Raise (Exc cls msg)) ∧
  Scanner3.port_scanner net host start_port end_port max_threads timeout ()
  = ([], (), Raise (Exc cls msg)) ∧
  (∀ schedule s,
     Pool.run (Scanner3.port_scanner_pool net host start_port end_port
                 max_threads timeout) schedule
       (Pool.init (Scanner3.port_scanner_pool net host start_port end_port
                     max_threads timeout)) = Some s →
     Pool.in_flight s = 0 ∧ ∀ rs, Pool.pc s ≠ Pool.Returned rs) ∧
  ∃ s,
    Pool.run (Scanner3.port_scanner_pool net host start_port end_port
                max_threads timeout) [Pool.Main false; Pool.Main false]
      (Pool.init (Scanner3.port_scanner_pool net host start_port end_port
                    max_threads timeout)) = Some s ∧
    Pool.pc s = Pool.Raised (Exc cls msg).
Proof.
  intros Hmax Hle Hstart.
  assert (py_range start_port (end_port + 1)
          = start_port :: seqZ (Z.succ start_port)
                            (Z.pred (end_port + 1 - start_port))) as Hrange.
  { unfold py_range. apply seqZ_cons. lia. }
  assert (∀ t, Scanner3.port_scanner net host start_port end_port max_threads t ()
               = ([], (), Raise (Exc cls msg))) as Hseq.
  { intros t. unfold Scanner3.port_scanner, local, ThreadPoolExecutor.
    rewrite Hrange, fmap_cons. cbn [submit_each]. rewrite Hstart.
    destruct (decide (max_threads ≤ 0)%Z); [lia|].
    destruct (decide (Z.of_nat 0 < max_threads)%Z); [|lia].
    reflexivity. }
  split; [apply (Hseq default_timeout)|]. split; [apply Hseq|]. split.
  - intros schedule s Hrun.
    destruct (no_thread_no_result
                (Scanner3.port_scanner_pool net host start_port end_port
                   max_threads timeout) start_port
                (seqZ (Z.succ start_port) (Z.pred (end_port + 1 - start_port)))
                cls msg schedule s) as [Hw Hpc]; try done.
    { simpl. lia. }
    split.
    + unfold Pool.in_flight. by rewrite Hw.
    + intros rs Hrs. rewrite Hrs in Hpc. by destruct Hpc as [?|[?|?]].
  - unfold Pool.run, Pool.step, Pool.main_step, Pool.init. simpl.
    destruct (decide (max_threads ≤ 0)%Z); [lia|]. rewrite Hrange. simpl.
    unfold Pool.adjust_thread_count. simpl. rewrite Hstart.
    destruct (decide (Z.of_nat 0 < max_threads)%Z); [|lia]. simpl.
    eexists. split; reflexivity.
Qed.

Lemma scan_raises_when_no_thread_starts_witness :
  Scanner.port_scanner thread_limit_reached "127.0.0.1" 1 1024 50 ()
  = ([], (), Raise (Exc RuntimeError "can't start new thread")).
Proof.
  apply (scan_raises_when_no_thread_starts thread_limit_reached "127.0.0.1" 1 1024
           50 default_timeout RuntimeError "can't start new thread");
    [lia|lia|reflexivity].
Defined.

(** ** After the output file has opened *)

(** X20: when the output file opens and the dump or the closing of the
    file raises, [export_to_json] raises: the file is closed whether or
    not the dump raised, the exception is that of the close when the close
    raises and that of the dump otherwise, and "Results saved" is not
    printed.  Both programs. *)
Theorem report_lost_when_write_fails sys data filename cls msg :
  (∀ r rest, data = r :: rest → is_Some (r !! "host")) →
  on_open sys filename = Ret () →
  on_file_close sys filename = Err cls msg ∨
  on_file_close sys filename = Ret () ∧ on_dump sys filename = Err cls msg →
  ∃ doc,
    result_of (Scanner3.report sys data) = Ok doc ∧
    Scanner.export_to_json sys data filename ()
    = ([EvOpen filename; EvJsonDump filename doc; EvFileClose filename], (),
       Raise (Exc cls msg)) ∧
    Scanner3.export_to_json sys data filename ()
    = ([EvOpen filename; EvJsonDump filename doc; EvFileClose filename], (),
       Raise (Exc cls msg)).
Proof.
  intros Hhost Hopen Hfail.
  assert (∃ host, match data with
                  | r :: _ => r !! "host"
                  | [] => Some (VStr "unknown")
                  end = Some host) as [host Hh].
  { destruct data as [|r rest]; [by eexists|].
    destruct (Hhost r rest eq_refl) as [h Hh]. by exists h. }
  exists (report_with sys host data).
  assert (Scanner3.export_to_json sys data filename ()
          = ([EvOpen filename; EvJsonDump filename (report_with sys host data);
              EvFileClose filename], (), Raise (Exc cls msg))) as Hrun.
  { rewrite export_to_json_run, Hh, Hopen.
    destruct Hfail as [->|[-> ->]]; [|done].
    by destruct (on_dump sys filename) as [[]|]. }
  split; [|split; exact Hrun].
  unfold result_of, Scanner3.report, report_with, getitem. rewrite bind_run.
  destruct data as [|r rest]; [by simplify_eq|]. by rewrite Hh.
Qed.

Lemma report_lost_when_write_fails_witness :
  result_of (Scanner.export_to_json full_device [] "/dev/full")
  = Raise (Exc OSError "[Errno 28] No space left on device") ∧
  EvPrint "Results saved to /dev/full"
  ∉ events (Scanner.export_to_json full_device [] "/dev/full").
Proof.
  destruct (report_lost_when_write_fails full_device [] "/dev/full" OSError
              "[Errno 28] No space left on device")
    as (doc & _ & Hrun & _).
  - intros r rest Hdata. discriminate.
  - reflexivity.
  - left. reflexivity.
  - unfold result_of, events. rewrite Hrun. split; [reflexivity|].
    simpl. rewrite !elem_of_cons, elem_of_nil.
    intros [?|[?|[?|[]]]]; discriminate.
Defined.



(** ** What can end a scan *)

Lemma submit_each_failure {A} (max_workers : Z) (threads : nat)
    (calls : list (answer unit * IO A)) (e : exn) :
  (submit_each max_workers threads calls).2 = Some e →
  ∃ call cls msg, call ∈ calls ∧ call.1 = Err cls msg ∧ e = Exc cls msg.
Proof.
  revert threads. induction calls as [|[start g] calls IH]; intros threads.
  - done.
  - cbn [submit_each].
    destruct (decide (Z.of_nat threads < max_workers)%Z) as [Hlt|Hge].
    + destruct start as [[]|cls msg].
      * specialize (IH (S threads)).
        destruct (submit_each max_workers (S threads) calls) as [[fs k] o].
        simpl in *. intros (call & cls & msg & Hin & Hcall)%IH.
        exists call, cls, msg. split; [by right|done].
      * simpl. intros [= <-]. exists (Err cls msg, g), cls, msg.
        split; [by left|done].
    + specialize (IH threads).
      destruct (submit_each max_workers threads calls) as [[fs k] o].
      simpl in *. intros (call & cls & msg & Hin & Hcall)%IH.
      exists call, cls, msg. split; [by right|done].
Qed.

Lemma port_scanner3_raises net host start_port end_port max_threads timeout e :
  result_of (Scanner3.port_scanner net host start_port end_port max_threads
               timeout) = Raise e →
  (max_threads ≤ 0)%Z ∧ e = Exc ValueError "max_workers must be greater than 0" ∨
  ∃ port cls msg,
    (start_port ≤ port ≤ end_port)%Z ∧
    on_thread_start (net port) = Err cls msg ∧ e = Exc cls msg.
Proof.
  unfold result_of, Scanner3.port_scanner, local, ThreadPoolExecutor.
  rewrite bind_run.
  destruct (decide (max_threads ≤ 0)%Z) as [Hmax|Hmax].
  { simpl. intros [= <-]. by left. }
  pose proof (submit_each_queued max_threads 0
                ((λ port, (on_thread_start (net port),
                           Scanner3.submitted_call net host timeout port))
                   <$> py_range start_port (end_port + 1))) as Hqueued.
  pose proof (submit_each_failure max_threads 0
                ((λ port, (on_thread_start (net port),
                           Scanner3.submitted_call net host timeout port))
                   <$> py_range start_port (end_port + 1))) as Hfailure.
  destruct (submit_each max_threads 0
              ((λ port, (on_thread_start (net port),
                         Scanner3.submitted_call net host timeout port))
                 <$> py_range start_port (end_port + 1)))
    as [[futures threads] failure].
  simpl in Hqueued, Hfailure.
  destruct failure as [e'|].
  - destruct (shutdown_run (S:=list dict) futures threads []) as (log & Hrun & _).
    unfold mret at 1, py_ret at 1. cbv beta iota.
    rewrite !bind_run, Hrun. simpl. intros [= <-]. right.
    destruct (Hfailure e' eq_refl) as (call & cls & msg & Hin & Hcall & ->).
    apply list_elem_of_fmap in Hin as (port & -> & Hport).
    unfold py_range in Hport. apply elem_of_seqZ in Hport.
    exists port, cls, msg. split; [lia|done].
  - destruct (collect_loop futures []) as (rs & Hrun & _).
    { apply Forall_forall. intros f Hf. apply Hqueued in Hf.
      rewrite <-list_fmap_compose in Hf.
      apply list_elem_of_fmap in Hf as (port & -> & _). apply scan_port_returns. }
    unfold mret at 1, py_ret at 1. cbv beta iota.
    rewrite !bind_run, Hrun. simpl. discriminate.
Qed.

Lemma refused_pool_stays (c : Pool.config) schedule s :
  (Pool.max_workers c ≤ 0)%Z →
  Pool.run c schedule (Pool.init c) = Some s →
  s = Pool.init c.
Proof.
  intros Hmax. destruct schedule as [|a rest]; simpl; [by intros [= <-]|].
  assert (Pool.step c a (Pool.init c) = None) as ->; [|done].
  unfold Pool.init.
  destruct a as [b|w|w]; simpl; [|done..].
  unfold Pool.main_step. simpl.
  by destruct (decide (Pool.max_workers c ≤ 0)%Z); [|lia].
Qed.

(** X22: a probe never ends a scan.  When [port_scanner] raises, what it
    raises is the [ValueError] of the pool's constructor, for a worker
    count that is not positive, or the exception of a thread that [submit]
    could not start for a port of the range; the same holds of every run on
    the thread pool whose main thread is leaving or has left
    [port_scanner] with an exception.  Both programs. *)
Theorem scan_ends_only_on_pool_failure net host start_port end_port max_threads timeout e :
  result_of (Scanner3.port_scanner net host start_port end_port max_threads
               timeout) = Raise e ∨
  result_of (Scanner.port_scanner net host start_port end_port max_threads)
  = Raise e ∨
  (∃ schedule s,
     Pool.run (Scanner3.port_scanner_pool net host start_port end_port
                 max_threads timeout) schedule
       (Pool.init (Scanner3.port_scanner_pool net host start_port end_port
                     max_threads timeout)) = Some s ∧
     (Pool.pc s = Pool.Failing e ∨ Pool.pc s = Pool.Raised e)) →
  (max_threads ≤ 0)%Z ∧ e = Exc ValueError "max_workers must be greater than 0" ∨
  ∃ port cls msg,
    (start_port ≤ port ≤ end_port)%Z ∧
    on_thread_start (net port) = Err cls msg ∧ e = Exc cls msg.
Proof.
  intros [Hseq|[Hseq|(schedule & s & Hrun & Hpc)]].
  - by apply port_scanner3_raises in Hseq.
  - by apply (port_scanner3_raises net host start_port end_port max_threads
                default_timeout) in Hseq.
  - set (c := Scanner3.port_scanner_pool net host start_port end_port max_threads
                timeout) in *.
    assert (∀ p, p ∈ Pool.ports c →
              result_of (Pool.work c p) = Raise e ∨
              (∃ cls msg, Pool.start_thread c p = Err cls msg ∧ e = Exc cls msg) →
              ∃ port cls msg,
                (start_port ≤ port ≤ end_port)%Z ∧
                on_thread_start (net port) = Err cls msg ∧ e = Exc cls msg)
      as Hcause.
    { intros p Hin [Hp|(cls & msg & Hp & ->)].
      - destruct (scan_port_returns (net p) host p timeout) as [d Hd].
        simpl in Hp. unfold Scanner3.submitted_call in Hp.
        rewrite scan_port_same in Hd. congruence.
      - simpl in Hin. unfold py_range in Hin. apply elem_of_seqZ in Hin.
        exists p, cls, msg. split; [lia|done]. }
    destruct (decide (max_threads ≤ 0)%Z) as [Hmax|Hmax].
    + left. split; [done|].
      apply (refused_pool_stays c) in Hrun; [|done]. subst s.
      unfold Pool.init in Hpc. simpl in Hpc.
      destruct (decide (max_threads ≤ 0)%Z); [|lia].
      destruct Hpc as [Hpc|Hpc]; by simplify_eq.
    + right.
      assert (Pool.reachable c s) as Hs by by exists schedule.
      pose proof (Pool.inv_pc c s (inv_reachable c s Hs)) as Hinv.
      unfold Pool.pc_inv in Hinv.
      destruct Hpc as [Hpc|Hpc]; rewrite Hpc in Hinv.
      * destruct Hinv as (p & Hin & Hp). by apply (Hcause p).
      * destruct Hinv as [Hle|(p & Hin & Hp)]; [simpl in Hle; lia|].
        by apply (Hcause p).
Qed.

Lemma scan_ends_only_on_pool_failure_witness :
  (3 ≤ 0)%Z ∧
  Exc RuntimeError "can't start new thread"
  = Exc ValueError "max_workers must be greater than 0" ∨
  ∃ port cls msg,
    (1 ≤ port ≤ 4)%Z ∧
    on_thread_start (thread_limit_reached port) = Err cls msg ∧
    Exc RuntimeError "can't start new thread" = Exc cls msg.
Proof.
  apply (scan_ends_only_on_pool_failure thread_limit_reached "127.0.0.1" 1 4 3
           default_timeout).
  left. reflexivity.
Defined.
